(** * The snooze registry and the badge counter of [src/api/chrome.js]

    A shallow embedding of the storage helpers of the extension: the
    synced key-value store is a finite map from keys to stored values,
    the asynchronous functions are computations that thread the state of
    the browser (store, sent messages, badge) and may throw. *)

From Stdlib Require Import ZArith String Ascii DecimalString DecimalZ.
From stdpp Require Import gmap strings list sorting.

Local Open Scope string_scope.
Local Open Scope list_scope.
Local Open Scope Z_scope.

(** ** JavaScript values and built-ins used by the file *)

Module JS.

(** A record identifier is a string or a number; [===] compares without
    coercion, so a number never equals a string. *)
Inductive ident : Type :=
| IdNum (n : Z)
| IdStr (s : string).

#[global] Instance ident_eq_dec : EqDecision ident.
Proof. solve_decision. Defined.

Definition strict_eq (a b : ident) : bool := bool_decide (a = b).

(** The result of converting a string to a number. *)
Inductive number : Type :=
| NaN
| Num (z : Z).

Definition is_digit (c : ascii) : bool :=
  let n := nat_of_ascii c in (48 <=? n)%nat && (n <=? 57)%nat.

(** The characters a numeric string literal is written with, white
    space apart: digits, sign, dot, exponent and hexadecimal digits,
    the radix marks and the letters of [Infinity]. *)
Definition numeric_literal_char (c : ascii) : bool :=
  is_digit c ||
  existsb (Ascii.eqb c) (list_ascii_of_string "+-.abcdefABCDEFxXoOInity").

(** A printable ASCII character that occurs in no numeric literal: a
    string that holds one converts to [NaN]. *)
Definition never_numeric (c : ascii) : bool :=
  let n := nat_of_ascii c in
  (33 <=? n)%nat && (n <=? 126)%nat && negb (numeric_literal_char c).

Definition digits_value (s : string) : Z :=
  fold_left (λ acc c, 10 * acc + (Z.of_nat (nat_of_ascii c) - 48))
            (list_ascii_of_string s) 0.

(** [ToNumber] on a string.  The conversion is given where it does not
    depend on floating-point rounding or on the full literal grammar:
    a string with a character foreign to every literal is [NaN], the
    empty string is [0], and a run of at most fifteen digits is its
    value.  On every other string (sign, fraction, exponent, radix
    prefix, [Infinity], surrounding white space) the model gives
    [None]. *)
Definition StringToNumber (s : string) : option number :=
  if existsb never_numeric (list_ascii_of_string s) then Some NaN
  else if bool_decide (s = "") then Some (Num 0)
  else if forallb is_digit (list_ascii_of_string s)
          && (String.length s <=? 15)%nat
       then Some (Num (digits_value s))
  else None.

(** [n > x] for a string length [n] and a converted number [x]; a
    comparison with [NaN] is false. *)
Definition length_gt (n : nat) (x : number) : bool :=
  match x with
  | NaN => false
  | Num z => z <? Z.of_nat n
  end.

(** [s.startsWith(search)]; a string is a sequence of 8-bit
    characters, and [String.length] is its [length]. *)
Definition startsWith (s search : string) : bool := String.prefix search s.

(** Numbers.  A JavaScript number is a double; the numbers of this file
    (counters, timestamps) are integers, and the model keeps a number as
    the integer it is.  Every integer of magnitude up to [2^53] is a
    double, and so is a sum of two doubles that stays in that range. *)
Definition safe_integer (n : Z) : Prop := - 2 ^ 53 ≤ n ≤ 2 ^ 53.

(** The double nearest to the integer [z], ties going to the even
    significand; the result is given as if exponents had no upper
    limit. *)
Definition round53 (z : Z) : Z :=
  let m := Z.abs z in
  if m <? 2 ^ 53 then z
  else
    let e := Z.log2 m - 52 in
    let q := Z.shiftr m e in
    let r := m - Z.shiftl q e in
    let half := 2 ^ (e - 1) in
    let q' := if (half <? r) || ((r =? half) && Z.odd q) then q + 1 else q in
    Z.sgn z * Z.shiftl q' e.

(** [a + b] on doubles that are integers: the exact sum rounded to a
    double.  A sum that rounds to [2^1024] or beyond is [Infinity],
    which is no integer: the model gives [None]. *)
Definition Number_add (a b : Z) : option Z :=
  let s := round53 (a + b) in
  if Z.abs s <? 2 ^ 1024 then Some s else None.

(** The decimal numeral of an integer, every digit written, with a
    leading minus sign when negative. *)
Definition decimal (n : Z) : string := NilZero.string_of_int (Z.to_int n).

(** Whether the integer [v] converts to the double [x], for [x] a
    double of at least [2^53]: [v] lies within half the distance to the
    neighbouring doubles, the bounds counting when the significand of
    [x] is even.  Distances are taken four times over to stay among
    integers. *)
Definition reads_as (x v : Z) : bool :=
  let e := Z.log2 x - 52 in
  let q := Z.shiftr x e in
  let d := 4 * (v - x) in
  let up := 2 ^ (e + 1) in
  let down := if q =? 2 ^ 52 then 2 ^ e else 2 ^ (e + 1) in
  if 0 <=? d then (d <? up) || ((d =? up) && Z.even q)
  else (- d <? down) || ((- d =? down) && Z.even q).

(** The multiple of [10^j] that converts to [x], if there is one: of the
    two around [x] the nearer, and of two equally near the even one. *)
Definition shortest_at (x : Z) (j : Z) : option Z :=
  let p := 10 ^ j in
  let lo := (x / p) * p in
  let hi := lo + p in
  match reads_as x lo && (0 <? lo), reads_as x hi with
  | true, true =>
      let dl := x - lo in
      let dh := hi - x in
      if dl <? dh then Some lo
      else if dh <? dl then Some hi
      else if Z.even (lo / p) then Some lo else Some hi
  | true, false => Some lo
  | false, true => Some hi
  | false, false => None
  end.

(** The numeral with the fewest significant digits that converts to
    [x]: the first hit going down from [10^j]. *)
Fixpoint shortest_from (x : Z) (j : nat) : Z * Z :=
  match shortest_at x (Z.of_nat j) with
  | Some v => (v, Z.of_nat j)
  | None =>
      match j with
      | O => (x, 0)
      | S j' => shortest_from x j'
      end
  end.

(** Digits [s] and decimal exponent as [d.ddde+x]. *)
Definition exponent_form (s : Z) (n : Z) : string :=
  match decimal s with
  | EmptyString => EmptyString
  | String a EmptyString => String a ("e+" +:+ decimal (n - 1))
  | String a rest => String a ("." +:+ rest +:+ "e+" +:+ decimal (n - 1))
  end.

Definition large_toString (x : Z) : string :=
  let '(v, j) := shortest_from x (Z.to_nat (Z.log2 x)) in
  let n := Z.of_nat (String.length (decimal v)) in
  if n <=? 21 then decimal v else exponent_form (v / 10 ^ j) n.

(** [n.toString()] for a double [n] that is an integer.  Below [2^53]
    every digit is written.  From there on the digits are the fewest
    that still convert to [n], followed by zeros up to [10^21] and
    written with an exponent beyond. *)
Definition Number_toString (n : Z) : string :=
  if Z.abs n <? 2 ^ 53 then decimal n
  else if 0 <? n then large_toString n
  else String "-" (large_toString (- n)).

(** The property names every object inherits from [Object.prototype]. *)
Definition Object_prototype_property (key : string) : bool :=
  bool_decide
    (key ∈ [ "constructor"; "__proto__"; "hasOwnProperty"; "isPrototypeOf";
             "propertyIsEnumerable"; "toLocaleString"; "toString"; "valueOf";
             "__defineGetter__"; "__defineSetter__"; "__lookupGetter__";
             "__lookupSetter__" ]).

(** [Array.prototype.sort(cmp)]: the sort is stable, so with a
    consistent comparator its result is the one stable rearrangement
    in comparator order; insertion from the right computes it.  [x]
    goes before the first [y] with [cmp x y <= 0]. *)
Section Sort.
Context {A : Type} (cmp : A → A → Z).

Fixpoint sort_insert (x : A) (l : list A) : list A :=
  match l with
  | [] => [x]
  | y :: l' => if cmp x y <=? 0 then x :: y :: l' else y :: sort_insert x l'
  end.

Fixpoint Array_sort (l : list A) : list A :=
  match l with
  | [] => []
  | x :: l' => sort_insert x (Array_sort l')
  end.
End Sort.

(** [Array.prototype.find] with a callback that may leave the model:
    the outer [None] is such a callback, [Some None] is [undefined]. *)
Fixpoint Array_find {A : Type} (p : A → option bool) (l : list A)
  : option (option A) :=
  match l with
  | [] => Some None
  | x :: l' =>
      match p x with
      | None => None
      | Some true => Some (Some x)
      | Some false => Array_find p l'
      end
  end.

End JS.

Import JS.

(** ** Data model *)

(** A snooze: the fields the file reads.  Callers may store further
    fields; the functions below never look at them. *)
Record SnoozeRecord : Type := mkSnooze {
  id : ident;
  url : string;
  notifyAt : Z;
  badgeCount : bool
}.

#[global] Instance SnoozeRecord_eq_dec : EqDecision SnoozeRecord.
Proof. solve_decision. Defined.

(** What the synced store holds under a key: the badge counter or the
    list of snoozes of a user. *)
Inductive value : Type :=
| VNum (n : Z)
| VList (l : list SnoozeRecord).

#[global] Instance value_eq_dec : EqDecision value.
Proof. solve_decision. Defined.

(** Truthiness of [obj[key]]: [undefined] and [0] are falsy, every array
    is truthy. *)
Definition truthy (v : option value) : bool :=
  match v with
  | None => false
  | Some (VNum n) => negb (n =? 0)
  | Some (VList _) => true
  end.

(** The constants of [../constants], kept by name. *)
Inductive Action : Type :=
| ACTION_UPDATE_BADGE_COUNTER
| ACTION_GET_CURRENT_TAB_URL.

Inductive Color : Type :=
| COLOR_SECONDARY.

(** Modelled from the spec: the constant [SK_BADGE_COUNTER] of
    [../constants], which is not part of the sources at hand.  The counter
    lives under one well-known key of the synced store; the file writes it
    under [badgeCounter] and reads the key named by this constant, so the
    two are the same key. *)
Definition SK_BADGE_COUNTER : string := "badgeCounter".

Record Message : Type := mkMessage {
  action : Action;
  msg : option Z
}.

(** The state of the browser the file acts on: the synced store, the
    objects handed to [chrome.storage.sync.set] (oldest first), the
    messages sent to the service worker (oldest first), and the badge. *)
Record World : Type := mkWorld {
  sync : gmap string value;
  syncLog : list (gmap string value);
  outbox : list Message;
  badgeText : option string;
  badgeColor : option Color
}.

(** ** Asynchronous computations *)

(** An awaited call returns a value, rejects with a [TypeError], or
    leaves the model (a list coerced to a string, an unmodelled numeric
    conversion). *)
Inductive Outcome (A : Type) : Type :=
| Returns (a : A) (w : World)
| Throws (w : World)
| Unmodelled.
Arguments Returns {A} a w.
Arguments Throws {A} w.
Arguments Unmodelled {A}.

Definition Async (A : Type) : Type := World → Outcome A.

#[global] Instance Async_ret : MRet Async := λ A a w, Returns a w.

#[global] Instance Async_bind : MBind Async := λ A B f m w,
  match m w with
  | Returns a w' => f a w'
  | Throws w' => Throws w'
  | Unmodelled => Unmodelled
  end.

Definition throw {A : Type} : Async A := λ w, Throws w.
Definition unmodelled {A : Type} : Async A := λ _, Unmodelled.

(** ** The platform calls *)

(** [chrome.storage.sync.get()]: a copy of the whole store, as a plain
    object whose own entries are the entries of the store. *)
Definition storage_sync_get_all : Async (gmap string value) :=
  λ w, Returns (sync w) w.

(** [chrome.storage.sync.get(keys)]: the entries under [keys]. *)
Definition storage_sync_get (keys : list string) : Async (gmap string value) :=
  λ w, Returns (filter (λ kv, kv.1 ∈ keys) (sync w)) w.

(** [chrome.storage.sync.set(obj)]: the entries of [obj] replace or extend
    those of the store. *)
Definition World_set (obj : gmap string value) (w : World) : World :=
  {| sync := obj ∪ sync w;
     syncLog := syncLog w ++ [obj];
     outbox := outbox w;
     badgeText := badgeText w;
     badgeColor := badgeColor w |}.

Definition storage_sync_set (obj : gmap string value) : Async unit :=
  λ w, Returns tt (World_set obj w).

(** [chrome.runtime.sendMessage({action, msg})]; the answer of the
    service worker is not used by the functions modelled here. *)
Definition World_send (m : Message) (w : World) : World :=
  {| sync := sync w;
     syncLog := syncLog w;
     outbox := outbox w ++ [m];
     badgeText := badgeText w;
     badgeColor := badgeColor w |}.

Definition runtime_sendMessage (m : Message) : Async unit :=
  λ w, Returns tt (World_send m w).

(** [chrome.action.setBadgeBackgroundColor({color})] *)
Definition action_setBadgeBackgroundColor (c : Color) : Async unit :=
  λ w, Returns tt
    {| sync := sync w;
       syncLog := syncLog w;
       outbox := outbox w;
       badgeText := badgeText w;
       badgeColor := Some c |}.

(** [chrome.action.setBadgeText({text})] *)
Definition action_setBadgeText (text : string) : Async unit :=
  λ w, Returns tt
    {| sync := sync w;
       syncLog := syncLog w;
       outbox := outbox w;
       badgeText := Some text;
       badgeColor := badgeColor w |}.

(** ** The functions of [chrome.js] *)

Definition sendMessage (a : Action) (message : option Z) : Async unit :=
  runtime_sendMessage {| action := a; msg := message |}.

Definition readFromSyncStorage (keys : list string) : Async (gmap string value) :=
  storage_sync_get keys.

Definition writeToSyncStorage (obj : gmap string value) : Async unit :=
  storage_sync_set obj.

(** The comparator [(x, y) => x.notifyAt - y.notifyAt]. *)
Definition byNotifyAt (x y : SnoozeRecord) : Z := notifyAt x - notifyAt y.

(** [obj[key]] on the object the store hands out: an own entry, or what
    the object inherits under that name (a function, or the prototype
    itself), or [undefined]. *)
Inductive Property : Type :=
| Own (v : value)
| Inherited
| Undefined.

Definition Object_get (obj : gmap string value) (key : string) : Property :=
  match obj !! key with
  | Some v => Own v
  | None => if Object_prototype_property key then Inherited else Undefined
  end.

(** Whatever is inherited is truthy. *)
Definition truthy_property (p : Property) : bool :=
  match p with
  | Own v => truthy (Some v)
  | Inherited => true
  | Undefined => false
  end.

Definition getSnoozeList (userId : string) : Async (list SnoozeRecord) :=
  storage ← storage_sync_get_all;
  if truthy_property (Object_get storage userId) then
    match Object_get storage userId with
    | Own (VList l) => mret (Array_sort byNotifyAt l)
    | _ => throw (* [sort] is no function of a number or of what is inherited *)
    end
  else mret [].

Definition setSnoozeList (userId : string) (snoozeList : list SnoozeRecord)
  : Async unit :=
  storage_sync_set {[ userId := VList snoozeList ]}.

(** [addSnooze].  The guard [if (!snoozeList)] never fires: the list read
    is an array, and an array is truthy.  The store keeps the list as it
    is when [set] is called; the sort of the last line works on the
    caller's copy. *)
Definition addSnooze (userId : string) (snooze : SnoozeRecord)
  : Async (list SnoozeRecord) :=
  snoozeList ← getSnoozeList userId;
  let snoozeList := snoozeList ++ [snooze] in
  setSnoozeList userId snoozeList;;
  mret (Array_sort byNotifyAt snoozeList).

(** [getBadgeCounter(initialValue = 0)]; an absent argument is [None]. *)
Definition getBadgeCounter (initialValue : option Z) : Async Z :=
  storage ← readFromSyncStorage [SK_BADGE_COUNTER];
  let badgeCounter := storage !! "badgeCounter" in
  if negb (truthy badgeCounter) then
    writeToSyncStorage {[ "badgeCounter" := VNum (default 0 initialValue) ]};;
    mret 0
  else
    match badgeCounter with
    | Some (VNum n) => mret n
    | _ => unmodelled (* a list under the counter's key *)
    end.

(** [incrementBadgeCounter(increment = 1)] *)
Definition incrementBadgeCounter (increment : option Z) : Async Z :=
  badgeCounter ← getBadgeCounter None;
  match Number_add badgeCounter (default 1 increment) with
  | Some badgeCounter =>
      writeToSyncStorage {[ "badgeCounter" := VNum badgeCounter ]};;
      mret badgeCounter
  | None => unmodelled (* the sum is [Infinity] *)
  end.

Definition removeSnooze (userId : string) (snooze : SnoozeRecord)
  : Async (list SnoozeRecord) :=
  snoozeList ← getSnoozeList userId;
  let updatedList := filter (λ s, id s ≠ id snooze) snoozeList in
  setSnoozeList userId updatedList;;
  (if badgeCount snooze then
     badgeCounter ← incrementBadgeCounter (Some (-1));
     sendMessage ACTION_UPDATE_BADGE_COUNTER (Some badgeCounter)
   else mret tt);;
  getSnoozeList userId.

(** The callback of [map] in [updateSnooze]. *)
Definition replaceById (wantedSnooze currentSnooze : SnoozeRecord) : SnoozeRecord :=
  if strict_eq (id currentSnooze) (id wantedSnooze)
  then wantedSnooze else currentSnooze.

Definition updateSnooze (userId : string) (wantedSnooze : SnoozeRecord)
  : Async (list SnoozeRecord) :=
  snoozeList ← getSnoozeList userId;
  let updatedList := replaceById wantedSnooze <$> snoozeList in
  setSnoozeList userId updatedList;;
  getSnoozeList userId.

(** The callback of [find] in [checkUrlAlreadySnoozed].  The test
    [snoozeUrl.length > url] compares a number with the string [url]:
    the string is converted to a number first. *)
Definition snoozeMatches (url0 : string) (snooze : SnoozeRecord) : option bool :=
  let snoozeUrl := url snooze in
  x ← StringToNumber url0;
  Some (if length_gt (String.length snoozeUrl) x
        then startsWith snoozeUrl url0
        else startsWith url0 snoozeUrl).

Definition checkUrlAlreadySnoozed (userId : string) (url0 : string)
  : Async bool :=
  snoozeList ← getSnoozeList userId;
  match Array_find (snoozeMatches url0) snoozeList with
  | Some snoozeFound => mret (bool_decide (snoozeFound ≠ None))
  | None => unmodelled
  end.

Definition updateBadgeCounterUI : Async unit :=
  badgeCounter ← getBadgeCounter None;
  let text := if 0 <? badgeCounter then Number_toString badgeCounter else "" in
  action_setBadgeBackgroundColor COLOR_SECONDARY;;
  action_setBadgeText text.

(** [chrome.storage.sync.clear()]: every entry of the synced store goes. *)
Definition World_clear (w : World) : World :=
  {| sync := ∅;
     syncLog := syncLog w;
     outbox := outbox w;
     badgeText := badgeText w;
     badgeColor := badgeColor w |}.

Definition storage_sync_clear : Async unit :=
  λ w, Returns tt (World_clear w).

Definition clearSyncStorage : Async unit := storage_sync_clear.

(** ** Properties of lists and stores *)

Definition notifyAt_le (x y : SnoozeRecord) : Prop := notifyAt x ≤ notifyAt y.

(** Sorted ascending by [notifyAt]. *)
Definition ascending (l : list SnoozeRecord) : Prop := Sorted notifyAt_le l.

#[global] Instance notifyAt_le_dec x y : Decision (notifyAt_le x y).
Proof. unfold notifyAt_le. apply _. Defined.

#[global] Instance notifyAt_le_trans : Transitive notifyAt_le.
Proof. unfold notifyAt_le. intros x y z. lia. Qed.

(** The number of records of [l] equal to [r]. *)
Definition occurrences (r : SnoozeRecord) (l : list SnoozeRecord) : nat :=
  length (filter (λ x, x = r) l).

(** The list stored for a user; a user without an entry, whose id is no
    name that objects inherit, has the empty list. *)
Definition stored_list (s : gmap string value) (userId : string)
    (l : list SnoozeRecord) : Prop :=
  s !! userId = Some (VList l)
  ∨ (s !! userId = None ∧ Object_prototype_property userId = false ∧ l = []).

(** The counter [c], the increment [d] and their sum are integers a
    number holds exactly. *)
Definition counts_exactly (c d : Z) : Prop :=
  safe_integer c ∧ safe_integer d ∧ safe_integer (c + d).

(** The stored badge counter; an absent counter counts as [0]. *)
Definition stored_counter (s : gmap string value) (c : Z) : Prop :=
  s !! SK_BADGE_COUNTER = Some (VNum c) ∨ (s !! SK_BADGE_COUNTER = None ∧ c = 0).


(** ** Concrete states used by the examples *)

Definition emptyWorld : World :=
  {| sync := ∅; syncLog := []; outbox := []; badgeText := None;
     badgeColor := None |}.

Definition worldOf (s : gmap string value) : World :=
  {| sync := s; syncLog := []; outbox := []; badgeText := None;
     badgeColor := None |}.

Definition snoozeA : SnoozeRecord :=
  {| id := IdNum 1; url := "https://a.com"; notifyAt := 200; badgeCount := true |}.

Definition snoozeB : SnoozeRecord :=
  {| id := IdNum 2; url := "https://b.com"; notifyAt := 100; badgeCount := false |}.

Definition snoozeA_unflagged : SnoozeRecord :=
  {| id := IdNum 1; url := "https://a.com"; notifyAt := 200; badgeCount := false |}.

Definition snoozeAx : SnoozeRecord :=
  {| id := IdNum 3; url := "https://a.com/x"; notifyAt := 300; badgeCount := false |}.

(** ** The sort by [notifyAt] *)

Section SortFacts.

Implicit Types (x y : SnoozeRecord) (l : list SnoozeRecord).

Lemma byNotifyAt_le x y : (byNotifyAt x y <=? 0) = true ↔ notifyAt_le x y.
Proof. unfold byNotifyAt, notifyAt_le. rewrite Z.leb_le. lia. Qed.

Lemma sort_insert_Permutation {A} (cmp : A → A → Z) a (l : list A) :
  sort_insert cmp a l ≡ₚ a :: l.
Proof.
  induction l as [|b l IH]; simpl; [done|].
  destruct (cmp a b <=? 0); [done|].
  rewrite IH. apply Permutation_swap.
Qed.

Lemma Array_sort_Permutation {A} (cmp : A → A → Z) (l : list A) :
  Array_sort cmp l ≡ₚ l.
Proof.
  induction l as [|a l IH]; simpl; [done|].
  by rewrite sort_insert_Permutation, IH.
Qed.

Lemma sort_insert_HdRel x y l :
  notifyAt_le y x → HdRel notifyAt_le y l →
  HdRel notifyAt_le y (sort_insert byNotifyAt x l).
Proof.
  intros Hyx Hl. destruct l as [|z l]; simpl; [by constructor|].
  destruct (byNotifyAt x z <=? 0); constructor; [done|].
  by inversion Hl.
Qed.

Lemma sort_insert_ascending x l :
  ascending l → ascending (sort_insert byNotifyAt x l).
Proof.
  unfold ascending. induction 1 as [|y l Hl IH Hhd]; simpl.
  - repeat constructor.
  - destruct (byNotifyAt x y <=? 0) eqn:E.
    + apply byNotifyAt_le in E. repeat constructor; done.
    + constructor; [done|]. apply sort_insert_HdRel; [|done].
      unfold byNotifyAt, notifyAt_le in *. apply Z.leb_gt in E. lia.
Qed.

Lemma Array_sort_ascending l : ascending (Array_sort byNotifyAt l).
Proof.
  induction l as [|x l IH]; simpl; [constructor|].
  by apply sort_insert_ascending.
Qed.

(** Sorting a list that is in order already changes nothing. *)
Lemma Array_sort_ascending_id l :
  ascending l → Array_sort byNotifyAt l = l.
Proof.
  unfold ascending. induction 1 as [|x l Hl IH Hhd]; simpl; [done|].
  rewrite IH. destruct Hhd as [|y l' Hxy]; simpl; [done|].
  apply byNotifyAt_le in Hxy. by rewrite Hxy.
Qed.

Lemma Array_sort_idemp l :
  Array_sort byNotifyAt (Array_sort byNotifyAt l) = Array_sort byNotifyAt l.
Proof. apply Array_sort_ascending_id, Array_sort_ascending. Qed.

(** The sort is stable: the records of one [notifyAt] keep their
    order. *)
Lemma sort_insert_stable k x l :
  ascending l →
  filter (λ r, notifyAt r = k) (sort_insert byNotifyAt x l)
  = filter (λ r, notifyAt r = k) (x :: l).
Proof.
  unfold ascending. induction 1 as [|y l Hl IH Hhd]; simpl; [done|].
  destruct (byNotifyAt x y <=? 0) eqn:E; [done|].
  apply Z.leb_gt in E. unfold byNotifyAt in E.
  rewrite (filter_cons _ y), IH, !(filter_cons _ x), !(filter_cons _ y).
  repeat case_decide; try done; lia.
Qed.

Lemma Array_sort_stable k l :
  filter (λ r, notifyAt r = k) (Array_sort byNotifyAt l)
  = filter (λ r, notifyAt r = k) l.
Proof.
  induction l as [|x l IH]; simpl; [done|].
  rewrite sort_insert_stable by apply Array_sort_ascending.
  by rewrite !filter_cons, IH.
Qed.

Lemma filter_ascending (P : SnoozeRecord → Prop) `{!∀ x, Decision (P x)} l :
  ascending l → ascending (filter P l).
Proof.
  unfold ascending. intros Hl. apply Sorted_StronglySorted in Hl; [|apply _].
  apply StronglySorted_Sorted.
  induction Hl as [|x l Hl IH Hall]; [constructor|].
  rewrite filter_cons. case_decide; [|done].
  constructor; [done|].
  apply Forall_forall. intros y Hy%list_elem_of_filter.
  rewrite Forall_forall in Hall. apply Hall, Hy.
Qed.

End SortFacts.

(** ** How the calls run *)

Ltac async_unfold :=
  unfold mbind, Async_bind, mret, Async_ret, throw, unmodelled,
    writeToSyncStorage, readFromSyncStorage, sendMessage, setSnoozeList,
    storage_sync_get_all, storage_sync_get, storage_sync_set,
    runtime_sendMessage.

Section Steps.

Implicit Types (w : World) (userId : string) (l : list SnoozeRecord) (c : Z).

Lemma World_set_singleton k v w :
  sync (World_set {[ k := v ]} w) = <[ k := v ]> (sync w).
Proof. simpl. by rewrite insert_union_singleton_l. Qed.

Lemma getSnoozeList_stored w userId l :
  stored_list (sync w) userId l →
  getSnoozeList userId w = Returns (Array_sort byNotifyAt l) w.
Proof.
  unfold getSnoozeList. async_unfold. unfold Object_get.
  by intros [-> | (-> & -> & ->)].
Qed.

Lemma stored_list_set w userId l :
  stored_list (sync (World_set {[ userId := VList l ]} w)) userId l.
Proof. left. rewrite World_set_singleton. apply lookup_insert_eq. Qed.

Lemma badgeCounter_read w :
  filter (λ kv : string * value, kv.1 ∈ [SK_BADGE_COUNTER]) (sync w)
    !! "badgeCounter"
  = sync w !! SK_BADGE_COUNTER.
Proof.
  rewrite map_lookup_filter. unfold SK_BADGE_COUNTER.
  by destruct (sync w !! "badgeCounter").
Qed.

Lemma getBadgeCounter_stored w c initialValue :
  stored_counter (sync w) c →
  getBadgeCounter initialValue w
  = Returns c
      (if decide (c = 0)
       then World_set {[ "badgeCounter" := VNum (default 0 initialValue) ]} w
       else w).
Proof.
  unfold getBadgeCounter. async_unfold. rewrite badgeCounter_read.
  intros [-> | [-> ->]]; simpl; [|done].
  case_decide as Hc.
  - subst c. done.
  - apply Z.eqb_neq in Hc. by rewrite Hc.
Qed.

Lemma round53_safe n : safe_integer n → round53 n = n.
Proof.
  unfold safe_integer, round53. intros Hn.
  destruct (Z.abs n <? 2 ^ 53) eqn:E; [done|].
  apply Z.ltb_ge in E.
  assert (Hcase : n = 2 ^ 53 ∨ n = - 2 ^ 53) by lia.
  by destruct Hcase as [-> | ->].
Qed.

Lemma Number_add_safe a b :
  safe_integer (a + b) → Number_add a b = Some (a + b).
Proof.
  intros Hs. unfold Number_add. rewrite (round53_safe _ Hs).
  assert (Hlt : Z.abs (a + b) < 2 ^ 1024).
  { unfold safe_integer in Hs.
    assert (2 ^ 53 < 2 ^ 1024) by (apply Z.pow_lt_mono_r; lia). lia. }
  apply Z.ltb_lt in Hlt. by rewrite Hlt.
Qed.

Lemma incrementBadgeCounter_stored w c increment :
  stored_counter (sync w) c →
  counts_exactly c (default 1 increment) →
  ∃ w',
    incrementBadgeCounter increment w = Returns (c + default 1 increment) w'
    ∧ sync w' = <[ SK_BADGE_COUNTER := VNum (c + default 1 increment) ]> (sync w)
    ∧ outbox w' = outbox w
    ∧ badgeText w' = badgeText w
    ∧ badgeColor w' = badgeColor w.
Proof.
  intros Hc (_ & _ & Hsafe). unfold incrementBadgeCounter.
  unfold mbind at 1, Async_bind at 1.
  rewrite (getBadgeCounter_stored _ _ _ Hc), (Number_add_safe _ _ Hsafe).
  async_unfold.
  eexists. split; [reflexivity|].
  rewrite World_set_singleton. unfold SK_BADGE_COUNTER.
  case_decide; [|done].
  rewrite World_set_singleton. by rewrite insert_insert_eq.
Qed.

End Steps.

(** ** Reading the list *)

(** C5, the claim as written fails: [getSnoozeList] throws for some
    user ids.  Three calls of [incrementBadgeCounter] on a fresh store
    leave the number [3] under the counter's key, and reading the list
    of that key then throws; on the fresh store itself, which holds no
    entry for [constructor], reading the list of [constructor] throws
    where the claim has the empty list. *)
Lemma getSnoozeList_throws_for_some_ids :
  (∃ w3,
     (incrementBadgeCounter None;; incrementBadgeCounter None;;
      incrementBadgeCounter None) emptyWorld = Returns 3 w3
     ∧ getSnoozeList SK_BADGE_COUNTER w3 = Throws w3)
  ∧ sync emptyWorld !! "constructor" = None
  ∧ getSnoozeList "constructor" emptyWorld = Throws emptyWorld.
Proof.
  split.
  - eexists. split; vm_compute; reflexivity.
  - split; vm_compute; reflexivity.
Qed.

(** C5, amended: for a user whose entry is a list, or whose entry is
    absent and whose id is no property name that objects inherit,
    [getSnoozeList] returns and leaves the state as it was; with no
    entry the result is the empty list, and otherwise it is the stored
    list sorted ascending by [notifyAt]: in order, a rearrangement of
    the stored records, with records of equal [notifyAt] in their stored
    order. *)
Theorem getSnoozeList_returns_sorted (w : World) (userId : string)
    (l : list SnoozeRecord) :
  stored_list (sync w) userId l →
  ∃ r, getSnoozeList userId w = Returns r w
     ∧ (sync w !! userId = None → r = [])
     ∧ ascending r
     ∧ r ≡ₚ l
     ∧ ∀ k, filter (λ s, notifyAt s = k) r = filter (λ s, notifyAt s = k) l.
Proof.
  intros Hl. exists (Array_sort byNotifyAt l).
  split; [by apply getSnoozeList_stored|].
  split.
  { intros Hnone. destruct Hl as [Hl | (_ & _ & ->)]; [congruence | done]. }
  split; [apply Array_sort_ascending|].
  split; [apply Array_sort_Permutation|].
  intros k. apply Array_sort_stable.
Qed.

Lemma getSnoozeList_returns_sorted_witness :
  stored_list (sync (worldOf {[ "u" := VList [snoozeA; snoozeB] ]})) "u"
    [snoozeA; snoozeB]
  ∧ ∃ r, getSnoozeList "u" (worldOf {[ "u" := VList [snoozeA; snoozeB] ]})
         = Returns r (worldOf {[ "u" := VList [snoozeA; snoozeB] ]})
       ∧ ascending r
       ∧ r ≡ₚ [snoozeA; snoozeB].
Proof.
  assert (H : stored_list (sync (worldOf {[ "u" := VList [snoozeA; snoozeB] ]}))
                "u" [snoozeA; snoozeB]) by (left; reflexivity).
  split; [exact H|].
  destruct (getSnoozeList_returns_sorted _ _ _ H) as (r & Hr & _ & Hasc & Hperm & _).
  exists r. split; [exact Hr|]. split; [exact Hasc|exact Hperm].
Defined.

(** ** The badge counter *)

(** C10: when the counter's key is absent or holds [0], [getBadgeCounter]
    writes the initial value [0] to the synced store and returns [0];
    when it holds a number other than [0] it returns that number and the
    state, the record of writes included, is as before.  So the read
    leaves the store unwritten exactly when the stored value is not
    zero. *)
Theorem getBadgeCounter_writes_when_zero (w : World) (c : Z) :
  stored_counter (sync w) c →
  ∃ w', getBadgeCounter None w = Returns c w'
      ∧ (if decide (c = 0)
         then w' = World_set {[ SK_BADGE_COUNTER := VNum 0 ]} w
              ∧ sync w' !! SK_BADGE_COUNTER = Some (VNum 0)
         else w' = w)
      ∧ (syncLog w' = syncLog w ↔ c ≠ 0).
Proof.
  intros Hc. rewrite (getBadgeCounter_stored _ _ _ Hc).
  eexists. split; [reflexivity|].
  case_decide as Hz; simpl.
  - split.
    + split; [done|]. rewrite <- insert_union_singleton_l.
      apply lookup_insert_eq.
    + split; [|done]. intros Heq.
      apply (f_equal length) in Heq. rewrite length_app in Heq.
      simpl in Heq. lia.
  - done.
Qed.

Lemma getBadgeCounter_writes_when_zero_witness :
  stored_counter (sync emptyWorld) 0
  ∧ ∃ w', getBadgeCounter None emptyWorld = Returns 0 w'
        ∧ syncLog w' = [ {[ SK_BADGE_COUNTER := VNum 0 ]} ].
Proof.
  assert (H : stored_counter (sync emptyWorld) 0) by (right; split; reflexivity).
  split; [exact H|].
  destruct (getBadgeCounter_writes_when_zero emptyWorld 0 H)
    as (w' & Hrun & Hw & _).
  exists w'. split; [exact Hrun|].
  simpl in Hw. destruct Hw as [-> _]. reflexivity.
Defined.

Lemma counts_exactly_small (c d : Z) :
  - 2 ^ 52 ≤ c ≤ 2 ^ 52 → - 2 ^ 52 ≤ d ≤ 2 ^ 52 → counts_exactly c d.
Proof.
  unfold counts_exactly, safe_integer.
  change (2 ^ 53) with (2 * 2 ^ 52). lia.
Qed.

(** C8, the claim as written fails: a number is a double, and a sum that
    no double holds is rounded.  With [2^53] stored,
    [incrementBadgeCounter()] returns and stores [2^53], not
    [2^53 + 1]. *)
Lemma incrementBadgeCounter_rounds_beyond_2_53 :
  ∃ w',
    incrementBadgeCounter None (worldOf {[ SK_BADGE_COUNTER := VNum (2 ^ 53) ]})
    = Returns (2 ^ 53) w'
    ∧ sync w' !! SK_BADGE_COUNTER = Some (VNum (2 ^ 53))
    ∧ 2 ^ 53 ≠ 2 ^ 53 + 1.
Proof.
  eexists. split; [vm_compute; reflexivity|].
  split; [vm_compute; reflexivity|]. lia.
Qed.

(** C8, amended: with the stored counter [c] (an absent counter counting
    as [0]) and the increment [d], [1] when none is given, when [c],
    [d] and [c + d] are integers of magnitude at most [2^53],
    [incrementBadgeCounter] stores and returns exactly [c + d], whatever
    its sign; on a store with no counter, [incrementBadgeCounter()]
    returns [1] and a following [incrementBadgeCounter(-1)] returns
    [0]. *)
Theorem incrementBadgeCounter_adds (w : World) (c : Z) (increment : option Z) :
  stored_counter (sync w) c →
  counts_exactly c (default 1 increment) →
  (∃ w', incrementBadgeCounter increment w
         = Returns (c + default 1 increment) w'
       ∧ sync w' = <[ SK_BADGE_COUNTER := VNum (c + default 1 increment) ]> (sync w))
  ∧ (c = 0 →
     ∃ w1 w2, incrementBadgeCounter None w = Returns 1 w1
            ∧ incrementBadgeCounter (Some (-1)) w1 = Returns 0 w2
            ∧ sync w2 !! SK_BADGE_COUNTER = Some (VNum 0)).
Proof.
  intros Hc Hex. split.
  - destruct (incrementBadgeCounter_stored w c increment Hc Hex)
      as (w' & Hrun & Hs & _).
    eauto.
  - intros ->.
    assert (Hex0 : counts_exactly 0 (default 1 None))
      by (apply counts_exactly_small; simpl; lia).
    destruct (incrementBadgeCounter_stored w 0 None Hc Hex0)
      as (w1 & Hrun1 & Hs1 & _).
    assert (Hc1 : stored_counter (sync w1) 1).
    { left. rewrite Hs1. apply lookup_insert_eq. }
    assert (Hex1 : counts_exactly 1 (default 1 (Some (-1))))
      by (apply counts_exactly_small; simpl; lia).
    destruct (incrementBadgeCounter_stored w1 1 (Some (-1)) Hc1 Hex1)
      as (w2 & Hrun2 & Hs2 & _).
    exists w1, w2. split; [exact Hrun1|]. split; [exact Hrun2|].
    rewrite Hs2. apply lookup_insert_eq.
Qed.

Lemma incrementBadgeCounter_adds_witness :
  stored_counter (sync (worldOf {[ SK_BADGE_COUNTER := VNum 0 ]})) 0
  ∧ counts_exactly 0 (default 1 (Some (-1)))
  ∧ ∃ w', incrementBadgeCounter (Some (-1)) (worldOf {[ SK_BADGE_COUNTER := VNum 0 ]})
          = Returns (-1) w'
        ∧ sync w' !! SK_BADGE_COUNTER = Some (VNum (-1)).
Proof.
  assert (H : stored_counter (sync (worldOf {[ SK_BADGE_COUNTER := VNum 0 ]})) 0)
    by (left; reflexivity).
  assert (Hex : counts_exactly 0 (default 1 (Some (-1))))
    by (apply counts_exactly_small; simpl; lia).
  split; [exact H|]. split; [exact Hex|].
  destruct (incrementBadgeCounter_adds _ 0 (Some (-1)) H Hex) as [(w' & Hrun & Hs) _].
  exists w'. split; [exact Hrun|]. rewrite Hs. apply lookup_insert_eq.
Defined.

(** [decimal] writes the numeral of its argument: read back as a
    numeral, the text is the number. *)
Lemma decimal_read_back (n : Z) :
  Z.of_int <$> NilZero.int_of_string (decimal n) = Some n.
Proof.
  unfold decimal. rewrite NilZero.isi.
  - simpl. f_equal. apply DecimalZ.of_to.
  - destruct n; simpl; try discriminate.
    intros [= H]. by apply DecimalPos.Unsigned.to_uint_nonnil in H.
  - destruct n; simpl; try discriminate.
    intros [= H]. by apply DecimalPos.Unsigned.to_uint_nonnil in H.
Qed.

Lemma decimal_nonempty (n : Z) : decimal n ≠ "".
Proof.
  intros H. pose proof (decimal_read_back n) as Hr.
  rewrite H in Hr. discriminate.
Qed.

(** Up to [2^53] every digit of the number is printed. *)
Lemma Number_toString_safe (n : Z) :
  safe_integer n → Number_toString n = decimal n.
Proof.
  unfold safe_integer, Number_toString. intros Hn.
  destruct (Z.abs n <? 2 ^ 53) eqn:E; [done|].
  apply Z.ltb_ge in E.
  assert (Hcase : n = 2 ^ 53 ∨ n = - 2 ^ 53) by lia.
  destruct Hcase as [-> | ->]; vm_compute; reflexivity.
Qed.

(** No number prints as the empty string. *)
Lemma large_toString_nonempty (x : Z) : large_toString x ≠ "".
Proof.
  unfold large_toString.
  destruct (shortest_from x (Z.to_nat (Z.log2 x))) as [v j].
  destruct (Z.of_nat (String.length (decimal v)) <=? 21).
  - apply decimal_nonempty.
  - unfold exponent_form.
    pose proof (decimal_nonempty (v / 10 ^ j)) as Hne.
    destruct (decimal (v / 10 ^ j)) as [|a [|b rest]]; done.
Qed.

Lemma Number_toString_nonempty (n : Z) : Number_toString n ≠ "".
Proof.
  unfold Number_toString.
  destruct (Z.abs n <? 2 ^ 53); [apply decimal_nonempty|].
  destruct (0 <? n); [apply large_toString_nonempty|done].
Qed.

(** C9, the claim as written fails: beyond [2^53] the text is not the
    numeral of the counter.  With [2^64] stored the badge shows
    [18446744073709552000], the numeral of another number, and with
    [10^21] stored it shows [1e+21]. *)
Lemma updateBadgeCounterUI_large_counter :
  ∃ w1 w2,
    updateBadgeCounterUI (worldOf {[ SK_BADGE_COUNTER := VNum (2 ^ 64) ]})
    = Returns tt w1
    ∧ badgeText w1 = Some "18446744073709552000"
    ∧ decimal (2 ^ 64) = "18446744073709551616"
    ∧ updateBadgeCounterUI (worldOf {[ SK_BADGE_COUNTER := VNum (10 ^ 21) ]})
      = Returns tt w2
    ∧ badgeText w2 = Some "1e+21".
Proof.
  eexists _, _. split; [vm_compute; reflexivity|].
  split; [vm_compute; reflexivity|]. split; [vm_compute; reflexivity|].
  split; vm_compute; reflexivity.
Qed.

(** C9, amended: with the stored counter [c] (an absent counter counting
    as [0]) at most [2^53], [updateBadgeCounterUI] sets the badge text to
    the empty string when [c <= 0] and to the decimal numeral of [c]
    otherwise, and sets the badge background to the secondary colour in
    both cases. *)
Theorem updateBadgeCounterUI_text (w : World) (c : Z) :
  stored_counter (sync w) c →
  c ≤ 2 ^ 53 →
  ∃ w' text,
    updateBadgeCounterUI w = Returns tt w'
    ∧ badgeText w' = Some text
    ∧ badgeColor w' = Some COLOR_SECONDARY
    ∧ (c ≤ 0 → text = "")
    ∧ (0 < c → text = decimal c
               ∧ Z.of_int <$> NilZero.int_of_string text = Some c).
Proof.
  intros Hc Hmax. unfold updateBadgeCounterUI.
  unfold mbind at 1, Async_bind at 1.
  rewrite (getBadgeCounter_stored _ _ _ Hc).
  unfold mbind, Async_bind, action_setBadgeBackgroundColor, action_setBadgeText.
  do 2 eexists. split; [reflexivity|]. simpl.
  split; [reflexivity|]. split; [reflexivity|].
  split.
  - intros Hle. apply Z.ltb_ge in Hle. by rewrite Hle.
  - intros Hlt. pose proof Hlt as Hlt'. apply Z.ltb_lt in Hlt'. rewrite Hlt'.
    rewrite Number_toString_safe by (unfold safe_integer; lia).
    split; [done|]. apply decimal_read_back.
Qed.

Lemma updateBadgeCounterUI_text_witness :
  stored_counter (sync (worldOf {[ SK_BADGE_COUNTER := VNum 12 ]})) 12
  ∧ 12 ≤ 2 ^ 53
  ∧ ∃ w', updateBadgeCounterUI (worldOf {[ SK_BADGE_COUNTER := VNum 12 ]})
          = Returns tt w'
        ∧ badgeText w' = Some "12"
        ∧ badgeColor w' = Some COLOR_SECONDARY.
Proof.
  assert (H : stored_counter (sync (worldOf {[ SK_BADGE_COUNTER := VNum 12 ]})) 12)
    by (left; reflexivity).
  assert (Hmax : 12 ≤ 2 ^ 53) by lia.
  split; [exact H|]. split; [exact Hmax|].
  destruct (updateBadgeCounterUI_text _ 12 H Hmax)
    as (w' & text & Hrun & Ht & Hcol & _ & Hpos).
  exists w'. split; [exact Hrun|]. split; [|exact Hcol].
  destruct Hpos as [-> _]; [lia|]. exact Ht.
Defined.

(** ** The mutating operations, step by step *)

Section Mutations.

Implicit Types (w : World) (userId : string) (l : list SnoozeRecord) (c : Z).

Lemma addSnooze_stored w userId snooze l :
  stored_list (sync w) userId l →
  addSnooze userId snooze w
  = Returns (Array_sort byNotifyAt (Array_sort byNotifyAt l ++ [snooze]))
      (World_set {[ userId := VList (Array_sort byNotifyAt l ++ [snooze]) ]} w).
Proof.
  intros Hl. unfold addSnooze. unfold mbind at 1, Async_bind at 1.
  by rewrite (getSnoozeList_stored _ _ _ Hl).
Qed.

Lemma updateSnooze_stored w userId wantedSnooze l :
  stored_list (sync w) userId l →
  updateSnooze userId wantedSnooze w
  = Returns
      (Array_sort byNotifyAt
         (replaceById wantedSnooze <$> Array_sort byNotifyAt l))
      (World_set
         {[ userId := VList (replaceById wantedSnooze <$> Array_sort byNotifyAt l) ]}
         w).
Proof.
  intros Hl. unfold updateSnooze. unfold mbind at 1, Async_bind at 1.
  rewrite (getSnoozeList_stored _ _ _ Hl).
  unfold mbind at 1, Async_bind at 1. unfold setSnoozeList at 1.
  unfold storage_sync_set at 1.
  by rewrite (getSnoozeList_stored _ _ _ (stored_list_set _ _ _)).
Qed.

Lemma stored_counter_set_other w userId l c :
  userId ≠ SK_BADGE_COUNTER →
  stored_counter (sync w) c →
  stored_counter (sync (World_set {[ userId := VList l ]} w)) c.
Proof.
  intros Hne Hc. unfold stored_counter.
  by rewrite World_set_singleton, lookup_insert_ne.
Qed.

(** [removeSnooze] with [badgeCount] unset in its argument. *)
Lemma removeSnooze_stored_plain w userId snooze l :
  badgeCount snooze = false →
  stored_list (sync w) userId l →
  removeSnooze userId snooze w
  = Returns (filter (λ s, id s ≠ id snooze) (Array_sort byNotifyAt l))
      (World_set
         {[ userId := VList (filter (λ s, id s ≠ id snooze) (Array_sort byNotifyAt l)) ]}
         w).
Proof.
  intros Hb Hl. unfold removeSnooze. unfold mbind at 1, Async_bind at 1.
  rewrite (getSnoozeList_stored _ _ _ Hl), Hb.
  unfold mbind at 1, Async_bind at 1. unfold setSnoozeList at 1.
  unfold storage_sync_set at 1.
  unfold mbind at 1, Async_bind at 1. unfold mret at 1, Async_ret at 1.
  rewrite (getSnoozeList_stored _ _ _ (stored_list_set _ _ _)).
  f_equal. apply Array_sort_ascending_id, filter_ascending, Array_sort_ascending.
Qed.

(** [removeSnooze] with [badgeCount] set in its argument. *)
Lemma removeSnooze_stored_badge w userId snooze l c :
  badgeCount snooze = true →
  userId ≠ SK_BADGE_COUNTER →
  stored_list (sync w) userId l →
  stored_counter (sync w) c →
  counts_exactly c (-1) →
  ∃ w',
    removeSnooze userId snooze w
    = Returns (filter (λ s, id s ≠ id snooze) (Array_sort byNotifyAt l)) w'
    ∧ sync w'
      = <[ SK_BADGE_COUNTER := VNum (c - 1) ]>
          (<[ userId := VList (filter (λ s, id s ≠ id snooze) (Array_sort byNotifyAt l)) ]>
             (sync w))
    ∧ outbox w'
      = outbox w ++ [ {| action := ACTION_UPDATE_BADGE_COUNTER; msg := Some (c - 1) |} ].
Proof.
  intros Hb Hne Hl Hc Hex. unfold removeSnooze. unfold mbind at 1, Async_bind at 1.
  rewrite (getSnoozeList_stored _ _ _ Hl), Hb.
  unfold mbind at 1, Async_bind at 1. unfold setSnoozeList at 1.
  unfold storage_sync_set at 1.
  set (kept := filter (λ s, id s ≠ id snooze) (Array_sort byNotifyAt l)).
  set (w1 := World_set {[ userId := VList kept ]} w).
  assert (Hc1 : stored_counter (sync w1) c) by by apply stored_counter_set_other.
  destruct (incrementBadgeCounter_stored w1 c (Some (-1)) Hc1 Hex)
    as (w2 & Hrun & Hs & Hout & _).
  change (c + default 1 (Some (-1))) with (c - 1) in Hrun, Hs.
  unfold mbind at 1, Async_bind at 1. unfold mbind at 1, Async_bind at 1.
  rewrite Hrun. unfold sendMessage, runtime_sendMessage.
  assert (Hl2 : stored_list (sync (World_send
             {| action := ACTION_UPDATE_BADGE_COUNTER; msg := Some (c - 1) |} w2))
             userId kept).
  { left. simpl. rewrite Hs, lookup_insert_ne by done.
    subst w1. rewrite World_set_singleton. apply lookup_insert_eq. }
  rewrite (getSnoozeList_stored _ _ _ Hl2).
  eexists. split.
  - f_equal. apply Array_sort_ascending_id, filter_ascending, Array_sort_ascending.
  - simpl. rewrite Hs, Hout. subst w1. rewrite World_set_singleton. done.
Qed.

(** Both cases of [removeSnooze] at once. *)
Lemma removeSnooze_stored w userId snooze l c :
  userId ≠ SK_BADGE_COUNTER →
  stored_list (sync w) userId l →
  stored_counter (sync w) c →
  (badgeCount snooze = true → counts_exactly c (-1)) →
  ∃ w',
    removeSnooze userId snooze w
    = Returns (filter (λ s, id s ≠ id snooze) (Array_sort byNotifyAt l)) w'
    ∧ sync w' !! userId
      = Some (VList (filter (λ s, id s ≠ id snooze) (Array_sort byNotifyAt l)))
    ∧ getSnoozeList userId w'
      = Returns (filter (λ s, id s ≠ id snooze) (Array_sort byNotifyAt l)) w'
    ∧ (if badgeCount snooze
       then sync w' !! SK_BADGE_COUNTER = Some (VNum (c - 1))
            ∧ outbox w'
              = outbox w
                ++ [ {| action := ACTION_UPDATE_BADGE_COUNTER; msg := Some (c - 1) |} ]
       else sync w' !! SK_BADGE_COUNTER = sync w !! SK_BADGE_COUNTER
            ∧ outbox w' = outbox w).
Proof.
  intros Hne Hl Hc Hex.
  set (kept := filter (λ s, id s ≠ id snooze) (Array_sort byNotifyAt l)).
  assert (Hkept : Array_sort byNotifyAt kept = kept)
    by apply Array_sort_ascending_id, filter_ascending, Array_sort_ascending.
  destruct (badgeCount snooze) eqn:Hb.
  - destruct (removeSnooze_stored_badge w userId snooze l c Hb Hne Hl Hc
                (Hex eq_refl))
      as (w' & Hrun & Hs & Hout).
    fold kept in Hrun, Hs.
    assert (Hlook : sync w' !! userId = Some (VList kept)).
    { rewrite Hs, lookup_insert_ne by done. apply lookup_insert_eq. }
    exists w'. split; [exact Hrun|]. split; [exact Hlook|].
    split. { rewrite (getSnoozeList_stored w' userId kept) by by left.
             by rewrite Hkept. }
    split; [|exact Hout]. rewrite Hs. apply lookup_insert_eq.
  - rewrite (removeSnooze_stored_plain _ _ _ _ Hb Hl). fold kept.
    eexists. split; [reflexivity|].
    rewrite World_set_singleton.
    split; [apply lookup_insert_eq|].
    split. { rewrite (getSnoozeList_stored _ userId kept (stored_list_set _ _ _)).
             by rewrite Hkept. }
    split; [|done]. by rewrite lookup_insert_ne.
Qed.

Lemma filter_all (P : SnoozeRecord → Prop) `{!∀ x, Decision (P x)} l :
  (∀ s, s ∈ l → P s) → filter P l = l.
Proof.
  induction l as [|x l IH]; [done|]. intros Hall.
  rewrite filter_cons_True by (apply Hall; left).
  f_equal. apply IH. intros s Hs. apply Hall. by right.
Qed.

End Mutations.

(** ** Adding a record *)

Lemma occurrences_Permutation (r : SnoozeRecord) (l k : list SnoozeRecord) :
  l ≡ₚ k → occurrences r l = occurrences r k.
Proof. intros H. unfold occurrences. by rewrite H. Qed.

Lemma occurrences_snoc (r : SnoozeRecord) (l : list SnoozeRecord) :
  occurrences r (l ++ [r]) = S (occurrences r l).
Proof.
  unfold occurrences. rewrite filter_app, length_app.
  rewrite filter_cons_True by done. simpl. lia.
Qed.

Lemma occurrences_absent (r : SnoozeRecord) (l : list SnoozeRecord) :
  r ∉ l → occurrences r l = 0%nat.
Proof.
  unfold occurrences. induction l as [|x l IH]; [done|].
  intros Hnot. apply not_elem_of_cons in Hnot as [Hne Hl].
  rewrite filter_cons_False by congruence. auto.
Qed.

(** C4, the claim as written fails: a list that holds [r] already holds
    it twice after [addSnooze]. *)
Lemma addSnooze_again_not_exactly_one :
  ∃ w1 l1,
    addSnooze "u" snoozeA (worldOf {[ "u" := VList [snoozeA] ]}) = Returns l1 w1
    ∧ getSnoozeList "u" w1 = Returns l1 w1
    ∧ occurrences snoozeA l1 = 2%nat
    ∧ occurrences snoozeA l1 ≠ 1%nat.
Proof.
  eexists _, [snoozeA; snoozeA].
  split; [vm_compute; reflexivity|].
  split; [vm_compute; reflexivity|]. split; [reflexivity|].
  discriminate.
Qed.

(** C4, amended: for a user whose entry is a list, or whose entry is
    absent and whose id is no property name that objects inherit,
    [addSnooze] appends [r] to the sorted current list (the empty list
    when none is stored) and persists that, with no check on [id]; the
    list [getSnoozeList] reads afterwards is the list [addSnooze]
    returned and holds one more record equal to [r] than the list stored
    before, so exactly one when the stored list held none. *)
Theorem addSnooze_adds_one_occurrence (w : World) (userId : string)
    (r : SnoozeRecord) (l : list SnoozeRecord) :
  stored_list (sync w) userId l →
  ∃ w1 l1,
    addSnooze userId r w = Returns l1 w1
    ∧ sync w1 !! userId = Some (VList (Array_sort byNotifyAt l ++ [r]))
    ∧ getSnoozeList userId w1 = Returns l1 w1
    ∧ occurrences r l1 = S (occurrences r l)
    ∧ (r ∉ l → occurrences r l1 = 1%nat).
Proof.
  intros Hl. rewrite (addSnooze_stored _ _ _ _ Hl).
  eexists _, _. split; [reflexivity|].
  split. { rewrite World_set_singleton. apply lookup_insert_eq. }
  split. { apply getSnoozeList_stored, stored_list_set. }
  assert (Hocc : occurrences r (Array_sort byNotifyAt (Array_sort byNotifyAt l ++ [r]))
                 = S (occurrences r l)).
  { rewrite (occurrences_Permutation r _ _ (Array_sort_Permutation _ _)).
    rewrite occurrences_snoc. f_equal.
    apply occurrences_Permutation, Array_sort_Permutation. }
  split; [exact Hocc|].
  intros Hnot. rewrite Hocc. by rewrite occurrences_absent.
Qed.

Lemma addSnooze_adds_one_occurrence_witness :
  stored_list (sync (worldOf {[ "u" := VList [snoozeB] ]})) "u" [snoozeB]
  ∧ (snoozeA ∉ [snoozeB])
  ∧ ∃ w1 l1,
      addSnooze "u" snoozeA (worldOf {[ "u" := VList [snoozeB] ]}) = Returns l1 w1
      ∧ sync w1 !! "u" = Some (VList [snoozeB; snoozeA])
      ∧ getSnoozeList "u" w1 = Returns l1 w1
      ∧ occurrences snoozeA l1 = 1%nat.
Proof.
  assert (H : stored_list (sync (worldOf {[ "u" := VList [snoozeB] ]})) "u" [snoozeB])
    by (left; reflexivity).
  assert (Hnot : snoozeA ∉ [snoozeB]).
  { intros Hin. apply list_elem_of_singleton in Hin. discriminate. }
  split; [exact H|]. split; [exact Hnot|].
  destruct (addSnooze_adds_one_occurrence _ "u" snoozeA [snoozeB] H)
    as (w1 & l1 & Hrun & Hraw & Hget & _ & Hone).
  exists w1, l1. split; [exact Hrun|]. split; [exact Hraw|].
  split; [exact Hget|]. exact (Hone Hnot).
Defined.

(** ** Order after a mutation *)





(** ** Removing a record *)







(** ** Updating a record *)

Lemma replaceById_other (wantedSnooze : SnoozeRecord) (l : list SnoozeRecord) :
  (∀ s, s ∈ l → id s ≠ id wantedSnooze) → replaceById wantedSnooze <$> l = l.
Proof.
  induction l as [|x l IH]; [done|]. intros Hall. simpl. f_equal.
  - unfold replaceById, strict_eq. rewrite bool_decide_eq_false_2; [done|].
    apply Hall. left.
  - apply IH. intros s Hs. apply Hall. by right.
Qed.

(** C6, the claim as written fails: the stored list holds the record
    due at [200] before the one due at [100], no stored record has the
    [id] of the argument, and [updateSnooze] persists the two in the
    other order. *)
Lemma updateSnooze_absent_id_reorders :
  ∃ l1 w1,
    updateSnooze "u" snoozeAx (worldOf {[ "u" := VList [snoozeA; snoozeB] ]})
    = Returns l1 w1
    ∧ (∀ s, s ∈ [snoozeA; snoozeB] → id s ≠ id snoozeAx)
    ∧ sync w1 !! "u" = Some (VList [snoozeB; snoozeA])
    ∧ sync w1 !! "u" ≠ Some (VList [snoozeA; snoozeB]).
Proof.
  eexists _, _. split; [vm_compute; reflexivity|].
  split.
  { intros s Hs. apply list_elem_of_In in Hs. simpl in Hs.
    destruct Hs as [<- | [<- | []]]; discriminate. }
  split; [vm_compute; reflexivity|].
  vm_compute. discriminate.
Qed.

(** C6, amended: for a user whose entry is a list, or whose entry is
    absent and whose id is no property name that objects inherit,
    [updateSnooze] reads the list in ascending [notifyAt] order,
    persists it with every record whose [id] is that of the
    argument replaced by the argument and every other record as it was,
    position by position, touches no other key, and returns the list as
    read again from the store; when no stored record has that [id], the
    list it persists is the list it read, the stored records in
    ascending order, which is the stored list itself when that was in
    order already. *)
Theorem updateSnooze_replaces_by_id (w : World) (userId : string)
    (wantedSnooze : SnoozeRecord) (l : list SnoozeRecord) :
  stored_list (sync w) userId l →
  ∃ w1 l1 raw,
    updateSnooze userId wantedSnooze w = Returns l1 w1
    ∧ sync w1 !! userId = Some (VList raw)
    ∧ length raw = length (Array_sort byNotifyAt l)
    ∧ (∀ i s, Array_sort byNotifyAt l !! i = Some s →
         raw !! i
         = Some (if decide (id s = id wantedSnooze) then wantedSnooze else s))
    ∧ (∀ k, k ≠ userId → sync w1 !! k = sync w !! k)
    ∧ getSnoozeList userId w1 = Returns l1 w1
    ∧ ((∀ s, s ∈ l → id s ≠ id wantedSnooze) →
       raw = Array_sort byNotifyAt l
       ∧ l1 = Array_sort byNotifyAt l
       ∧ (ascending l → raw = l)).
Proof.
  intros Hl. rewrite (updateSnooze_stored _ _ _ _ Hl).
  eexists _, _, _. split; [reflexivity|].
  rewrite World_set_singleton.
  split; [apply lookup_insert_eq|].
  split; [apply length_fmap|].
  split.
  { intros i s Hi. rewrite list_lookup_fmap, Hi. simpl. f_equal.
    unfold replaceById, strict_eq. by destruct (decide (id s = id wantedSnooze)) as [->|];
      [rewrite bool_decide_eq_true_2 | rewrite bool_decide_eq_false_2]. }
  split. { intros k Hk. by rewrite lookup_insert_ne. }
  split. { apply getSnoozeList_stored, stored_list_set. }
  intros Habs.
  assert (Hid : replaceById wantedSnooze <$> Array_sort byNotifyAt l
                = Array_sort byNotifyAt l).
  { apply replaceById_other. intros s Hs. apply Habs.
    by rewrite <- (Array_sort_Permutation byNotifyAt l). }
  rewrite Hid. split; [done|]. split; [apply Array_sort_idemp|].
  apply Array_sort_ascending_id.
Qed.

Lemma updateSnooze_replaces_by_id_witness :
  stored_list (sync (worldOf {[ "u" := VList [snoozeB; snoozeA] ]})) "u"
    [snoozeB; snoozeA]
  ∧ ∃ w1 l1,
      updateSnooze "u" snoozeA_unflagged (worldOf {[ "u" := VList [snoozeB; snoozeA] ]})
      = Returns l1 w1
      ∧ sync w1 !! "u" = Some (VList [snoozeB; snoozeA_unflagged]).
Proof.
  assert (H : stored_list (sync (worldOf {[ "u" := VList [snoozeB; snoozeA] ]})) "u"
                [snoozeB; snoozeA]) by (left; reflexivity).
  split; [exact H|].
  destruct (updateSnooze_replaces_by_id _ "u" snoozeA_unflagged _ H)
    as (w1 & l1 & raw & Hrun & Hraw & Hlen & Hpos & _).
  exists w1, l1. split; [exact Hrun|]. rewrite Hraw. do 2 f_equal.
  pose proof (Hpos 0%nat snoozeB eq_refl) as H0.
  pose proof (Hpos 1%nat snoozeA eq_refl) as H1.
  destruct raw as [|a [|b [|? ?]]]; try discriminate.
  simpl in H0, H1. injection H0 as ->. injection H1 as ->. reflexivity.
Defined.

(** ** The url check *)

(** What [checkUrlAlreadySnoozed] computes for a url that is no numeric
    literal: the comparison of a length with it is false, so only the
    second test runs. *)
Lemma Array_find_NaN (url0 : string) (l : list SnoozeRecord) :
  StringToNumber url0 = Some NaN →
  ∃ found, Array_find (snoozeMatches url0) l = Some found
         ∧ (found ≠ None ↔ Exists (λ s, startsWith url0 (url s) = true) l).
Proof.
  intros Hnan. induction l as [|x l (found & Hfind & Hiff)]; simpl.
  - exists None. split; [done|]. split; [done|].
    intros H. by apply Exists_nil in H.
  - unfold snoozeMatches at 1. rewrite Hnan. simpl.
    destruct (startsWith url0 (url x)) eqn:Hx.
    + exists (Some x). split; [done|]. split; [|done].
      intros _. by apply Exists_cons_hd.
    + exists found. split; [done|]. rewrite Exists_cons, Hiff.
      split; [by right|]. intros [Hx'|H]; [congruence|done].
Qed.

Lemma checkUrlAlreadySnoozed_NaN (w : World) (userId url0 : string)
    (l : list SnoozeRecord) :
  stored_list (sync w) userId l →
  StringToNumber url0 = Some NaN →
  checkUrlAlreadySnoozed userId url0 w
  = Returns (bool_decide (Exists (λ s, startsWith url0 (url s) = true) l)) w.
Proof.
  intros Hl Hnan. unfold checkUrlAlreadySnoozed.
  unfold mbind, Async_bind. rewrite (getSnoozeList_stored _ _ _ Hl).
  destruct (Array_find_NaN url0 (Array_sort byNotifyAt l) Hnan)
    as (found & -> & Hiff).
  unfold mret, Async_ret. f_equal. apply bool_decide_ext.
  rewrite Hiff. rewrite !Exists_exists.
  by setoid_rewrite (Array_sort_Permutation byNotifyAt l).
Qed.

(** The case the claim gives as its example: a stored url that is a
    prefix of the query is found. *)
Example checkUrlAlreadySnoozed_stored_prefix :
  checkUrlAlreadySnoozed "u" "https://a.com/x" (worldOf {[ "u" := VList [snoozeA] ]})
  = Returns true (worldOf {[ "u" := VList [snoozeA] ]}).
Proof. vm_compute. reflexivity. Qed.

(** C2, where the code departs from the claim: the stored url
    [https://a.com/x] is longer than the query [https://a.com] and
    starts with it, so the claim has the check answer true; the length
    test compares with the query string itself, which is no number, and
    the check answers false. *)
Theorem checkUrlAlreadySnoozed_misses_longer_stored_url :
  checkUrlAlreadySnoozed "u" "https://a.com" (worldOf {[ "u" := VList [snoozeAx] ]})
  = Returns false (worldOf {[ "u" := VList [snoozeAx] ]})
  ∧ (String.length "https://a.com" < String.length (url snoozeAx))%nat
  ∧ startsWith (url snoozeAx) "https://a.com" = true
  ∧ StringToNumber "https://a.com" = Some NaN.
Proof.
  split; [vm_compute; reflexivity|].
  split; [simpl; lia|].
  split; vm_compute; reflexivity.
Qed.

(** ** Further facts about the sort *)

Section SortFilter.

Context (P : SnoozeRecord → Prop) `{!∀ x, Decision (P x)}.
Implicit Types (x y : SnoozeRecord) (l : list SnoozeRecord).

Lemma sort_insert_least x l :
  Forall (notifyAt_le x) l → sort_insert byNotifyAt x l = x :: l.
Proof.
  destruct 1 as [|y l Hxy _]; simpl; [done|].
  apply byNotifyAt_le in Hxy. by rewrite Hxy.
Qed.

(** Filtering commutes with insertion into a sorted list. *)
Lemma filter_sort_insert x l :
  StronglySorted notifyAt_le l →
  filter P (sort_insert byNotifyAt x l)
  = if decide (P x) then sort_insert byNotifyAt x (filter P l) else filter P l.
Proof.
  induction 1 as [|y l Hl IH Hall]; simpl.
  - rewrite filter_cons. by case_decide.
  - destruct (byNotifyAt x y <=? 0) eqn:E.
    + rewrite (filter_cons _ x). case_decide; [|done].
      rewrite sort_insert_least; [done|].
      apply byNotifyAt_le in E.
      assert (Hx : Forall (notifyAt_le x) (y :: l)).
      { constructor; [done|]. eapply Forall_impl; [exact Hall|].
        intros z Hz. by etrans. }
      rewrite Forall_forall in Hx. apply Forall_forall.
      intros z Hz%list_elem_of_filter. apply Hx, Hz.
    + rewrite (filter_cons _ y), IH, (filter_cons _ y).
      repeat case_decide; try done. simpl. by rewrite E.
Qed.

Lemma filter_Array_sort l :
  filter P (Array_sort byNotifyAt l) = Array_sort byNotifyAt (filter P l).
Proof.
  induction l as [|x l IH]; simpl; [done|].
  rewrite filter_sort_insert
    by (apply Sorted_StronglySorted; [apply _|apply Array_sort_ascending]).
  rewrite filter_cons, IH. by case_decide.
Qed.

Lemma filter_filter_same l : filter P (filter P l) = filter P l.
Proof.
  apply filter_all. intros s Hs. by apply list_elem_of_filter in Hs as [? _].
Qed.

End SortFilter.

Lemma fmap_fixed (f : SnoozeRecord → SnoozeRecord) (l : list SnoozeRecord) :
  (∀ s, s ∈ l → f s = s) → f <$> l = l.
Proof.
  induction l as [|x l IH]; [done|]. intros Hall. simpl. f_equal.
  - apply Hall. left.
  - apply IH. intros s Hs. apply Hall. by right.
Qed.

Lemma replaceById_idemp (wantedSnooze s : SnoozeRecord) :
  replaceById wantedSnooze (replaceById wantedSnooze s) = replaceById wantedSnooze s.
Proof.
  unfold replaceById, strict_eq.
  destruct (decide (id s = id wantedSnooze)) as [Heq|Hne].
  - rewrite (bool_decide_eq_true_2 _ Heq). by rewrite bool_decide_eq_true_2.
  - rewrite (bool_decide_eq_false_2 _ Hne). by rewrite bool_decide_eq_false_2.
Qed.

Lemma replaceById_cases (wantedSnooze s : SnoozeRecord) :
  (id s = id wantedSnooze ∧ replaceById wantedSnooze s = wantedSnooze)
  ∨ (id s ≠ id wantedSnooze ∧ replaceById wantedSnooze s = s).
Proof.
  unfold replaceById, strict_eq.
  destruct (decide (id s = id wantedSnooze)) as [Heq|Hne].
  - left. by rewrite bool_decide_eq_true_2.
  - right. by rewrite bool_decide_eq_false_2.
Qed.

Lemma startsWith_refl (s : string) : startsWith s s = true.
Proof.
  unfold startsWith. induction s as [|a s IH]; simpl; [done|].
  by destruct (ascii_dec a a).
Qed.

Lemma startsWith_empty (s : string) : startsWith s "" = true.
Proof. unfold startsWith. by destruct s. Qed.

(** ** The list operations: what they keep and how they compose *)





(** X3: [removeSnooze] lowers the counter on every call whose argument
    has [badgeCount] set, whether or not a record goes.  For a user
    other than the counter's key, whose entry is a list, or is absent
    with an id that is no property name objects inherit, and a counter
    [c] with [c], [c - 1] and [c - 2] of magnitude at most [2^53]:
    called twice with the same flagged record, the second call returns
    the list of the first and removes nothing, yet the counter ends at
    [c - 2] and two messages are sent, with [c - 1] and [c - 2]. *)
Theorem removeSnooze_twice_counts_twice (w : World) (userId : string)
    (snooze : SnoozeRecord) (l : list SnoozeRecord) (c : Z) :
  badgeCount snooze = true →
  userId ≠ SK_BADGE_COUNTER →
  stored_list (sync w) userId l →
  stored_counter (sync w) c →
  counts_exactly c (-1) →
  counts_exactly (c - 1) (-1) →
  ∃ l1 w1 w2,
    removeSnooze userId snooze w = Returns l1 w1
    ∧ removeSnooze userId snooze w1 = Returns l1 w2
    ∧ sync w2 !! userId = Some (VList l1)
    ∧ sync w2 !! SK_BADGE_COUNTER = Some (VNum (c - 2))
    ∧ outbox w2
      = outbox w
        ++ [ {| action := ACTION_UPDATE_BADGE_COUNTER; msg := Some (c - 1) |};
             {| action := ACTION_UPDATE_BADGE_COUNTER; msg := Some (c - 2) |} ].
Proof.
  intros Hb Hne Hl Hc Hex1 Hex2.
  destruct (removeSnooze_stored w userId snooze l c Hne Hl Hc (λ _, Hex1))
    as (w1 & Hrun1 & Hlook1 & _ & Hbadge1).
  rewrite Hb in Hbadge1. destruct Hbadge1 as [Hcnt1 Hout1].
  set (kept := filter (λ s, id s ≠ id snooze) (Array_sort byNotifyAt l)) in *.
  assert (Hl1 : stored_list (sync w1) userId kept) by by left.
  assert (Hc1 : stored_counter (sync w1) (c - 1)) by by left.
  destruct (removeSnooze_stored w1 userId snooze kept (c - 1) Hne Hl1 Hc1
              (λ _, Hex2))
    as (w2 & Hrun2 & Hlook2 & _ & Hbadge2).
  rewrite Hb in Hbadge2. destruct Hbadge2 as [Hcnt2 Hout2].
  assert (Hsame : filter (λ s, id s ≠ id snooze) (Array_sort byNotifyAt kept) = kept).
  { rewrite filter_Array_sort. unfold kept at 1. rewrite filter_filter_same.
    apply Array_sort_ascending_id, filter_ascending, Array_sort_ascending. }
  rewrite Hsame in Hrun2, Hlook2.
  exists kept, w1, w2. split; [exact Hrun1|]. split; [exact Hrun2|].
  split; [exact Hlook2|].
  split. { rewrite Hcnt2. do 2 f_equal. lia. }
  rewrite Hout2, Hout1, <- app_assoc. simpl. do 5 f_equal. lia.
Qed.

Lemma removeSnooze_twice_counts_twice_witness :
  badgeCount snoozeA = true
  ∧ "u" ≠ SK_BADGE_COUNTER
  ∧ stored_list
      (sync (worldOf {[ "u" := VList [snoozeA]; SK_BADGE_COUNTER := VNum 1 ]}))
      "u" [snoozeA]
  ∧ stored_counter
      (sync (worldOf {[ "u" := VList [snoozeA]; SK_BADGE_COUNTER := VNum 1 ]})) 1
  ∧ counts_exactly 1 (-1)
  ∧ counts_exactly (1 - 1) (-1)
  ∧ ∃ l1 w1 w2,
      removeSnooze "u" snoozeA
        (worldOf {[ "u" := VList [snoozeA]; SK_BADGE_COUNTER := VNum 1 ]})
      = Returns l1 w1
      ∧ removeSnooze "u" snoozeA w1 = Returns l1 w2
      ∧ sync w2 !! SK_BADGE_COUNTER = Some (VNum (-1)).
Proof.
  assert (H0 : badgeCount snoozeA = true) by reflexivity.
  assert (H1 : "u" ≠ SK_BADGE_COUNTER) by discriminate.
  assert (H2 : stored_list
      (sync (worldOf {[ "u" := VList [snoozeA]; SK_BADGE_COUNTER := VNum 1 ]}))
      "u" [snoozeA]) by (left; reflexivity).
  assert (H3 : stored_counter
      (sync (worldOf {[ "u" := VList [snoozeA]; SK_BADGE_COUNTER := VNum 1 ]})) 1)
    by (left; reflexivity).
  assert (H4 : counts_exactly 1 (-1)) by (apply counts_exactly_small; lia).
  assert (H5 : counts_exactly (1 - 1) (-1)) by (apply counts_exactly_small; lia).
  split; [exact H0|]. split; [exact H1|]. split; [exact H2|]. split; [exact H3|].
  split; [exact H4|]. split; [exact H5|].
  destruct (removeSnooze_twice_counts_twice _ "u" snoozeA _ 1 H0 H1 H2 H3 H4 H5)
    as (l1 & w1 & w2 & Hr1 & Hr2 & _ & Hcnt & _).
  exists l1, w1, w2. split; [exact Hr1|]. split; [exact Hr2|]. exact Hcnt.
Defined.

(** X4: for a user whose entry is a list, or whose entry is absent and
    whose id is no property name that objects inherit, [updateSnooze]
    keeps the number of records; every record it
    returns is the argument or a stored record with another [id], so
    afterwards the argument is the only record with its [id]; the lists
    of other users, the badge counter and the messages are as before. *)
Theorem updateSnooze_keeps_length (w : World) (userId : string)
    (wantedSnooze : SnoozeRecord) (l : list SnoozeRecord) :
  stored_list (sync w) userId l →
  ∃ l1 w1,
    updateSnooze userId wantedSnooze w = Returns l1 w1
    ∧ length l1 = length l
    ∧ (∀ s, s ∈ l1 → s = wantedSnooze ∨ (s ∈ l ∧ id s ≠ id wantedSnooze))
    ∧ (∀ s, s ∈ l1 → id s = id wantedSnooze → s = wantedSnooze)
    ∧ (∀ k, k ≠ userId → sync w1 !! k = sync w !! k)
    ∧ outbox w1 = outbox w.
Proof.
  intros Hl. rewrite (updateSnooze_stored _ _ _ _ Hl).
  eexists _, _. split; [reflexivity|].
  set (raw := replaceById wantedSnooze <$> Array_sort byNotifyAt l).
  assert (Hin : ∀ s, s ∈ Array_sort byNotifyAt raw →
                s = wantedSnooze ∨ (s ∈ l ∧ id s ≠ id wantedSnooze)).
  { intros s Hs. rewrite (Array_sort_Permutation byNotifyAt raw) in Hs.
    apply list_elem_of_fmap in Hs as (s0 & -> & Hs0).
    rewrite (Array_sort_Permutation byNotifyAt l) in Hs0.
    destruct (replaceById_cases wantedSnooze s0) as [[_ ->] | [Hne ->]]; auto. }
  split.
  { rewrite (Array_sort_Permutation byNotifyAt raw). unfold raw.
    by rewrite length_fmap, (Array_sort_Permutation byNotifyAt l). }
  split; [exact Hin|].
  split. { intros s Hs Hid. destruct (Hin s Hs) as [-> | [_ Hne]]; done. }
  split; [|done].
  intros k Hk. rewrite World_set_singleton. by rewrite lookup_insert_ne.
Qed.

Lemma updateSnooze_keeps_length_witness :
  stored_list (sync (worldOf {[ "u" := VList [snoozeB; snoozeA] ]})) "u"
    [snoozeB; snoozeA]
  ∧ ∃ l1 w1,
      updateSnooze "u" snoozeA_unflagged (worldOf {[ "u" := VList [snoozeB; snoozeA] ]})
      = Returns l1 w1
      ∧ length l1 = 2%nat.
Proof.
  assert (H : stored_list (sync (worldOf {[ "u" := VList [snoozeB; snoozeA] ]})) "u"
                [snoozeB; snoozeA]) by (left; reflexivity).
  split; [exact H|].
  destruct (updateSnooze_keeps_length _ "u" snoozeA_unflagged _ H)
    as (l1 & w1 & Hrun & Hlen & _).
  exists l1, w1. split; [exact Hrun|]. exact Hlen.
Defined.

(** X5: for a user whose entry is a list, or whose entry is absent and
    whose id is no property name that objects inherit, [updateSnooze] is
    idempotent: a second call with the same record
    returns the list of the first call, and that list is then the list
    the store holds. *)
Theorem updateSnooze_idempotent (w : World) (userId : string)
    (wantedSnooze : SnoozeRecord) (l : list SnoozeRecord) :
  stored_list (sync w) userId l →
  ∃ l1 w1 w2,
    updateSnooze userId wantedSnooze w = Returns l1 w1
    ∧ updateSnooze userId wantedSnooze w1 = Returns l1 w2
    ∧ sync w2 !! userId = Some (VList l1).
Proof.
  intros Hl. rewrite (updateSnooze_stored _ _ _ _ Hl).
  set (raw := replaceById wantedSnooze <$> Array_sort byNotifyAt l).
  set (w1 := World_set {[ userId := VList raw ]} w).
  assert (Hl1 : stored_list (sync w1) userId raw) by apply stored_list_set.
  assert (Hfix : replaceById wantedSnooze <$> Array_sort byNotifyAt raw
                 = Array_sort byNotifyAt raw).
  { apply fmap_fixed. intros s Hs.
    rewrite (Array_sort_Permutation byNotifyAt raw) in Hs.
    apply list_elem_of_fmap in Hs as (s0 & -> & _). apply replaceById_idemp. }
  eexists _, w1, _. split; [reflexivity|].
  rewrite (updateSnooze_stored _ _ _ _ Hl1), Hfix, Array_sort_idemp.
  split; [reflexivity|].
  rewrite World_set_singleton. apply lookup_insert_eq.
Qed.

Lemma updateSnooze_idempotent_witness :
  stored_list (sync (worldOf {[ "u" := VList [snoozeA; snoozeB] ]})) "u"
    [snoozeA; snoozeB]
  ∧ ∃ l1 w1 w2,
      updateSnooze "u" snoozeA_unflagged (worldOf {[ "u" := VList [snoozeA; snoozeB] ]})
      = Returns l1 w1
      ∧ updateSnooze "u" snoozeA_unflagged w1 = Returns l1 w2.
Proof.
  assert (H : stored_list (sync (worldOf {[ "u" := VList [snoozeA; snoozeB] ]})) "u"
                [snoozeA; snoozeB]) by (left; reflexivity).
  split; [exact H|].
  destruct (updateSnooze_idempotent _ "u" snoozeA_unflagged _ H)
    as (l1 & w1 & w2 & Hr1 & Hr2 & _).
  exists l1, w1, w2. by split.
Defined.



(** ** The badge counter: how its operations compose *)

Lemma updateBadgeCounterUI_stored (w : World) (c : Z) :
  stored_counter (sync w) c →
  ∃ w',
    updateBadgeCounterUI w = Returns tt w'
    ∧ sync w'
      = sync (if decide (c = 0)
              then World_set {[ "badgeCounter" := VNum 0 ]} w else w)
    ∧ outbox w' = outbox w
    ∧ badgeText w' = Some (if 0 <? c then Number_toString c else "").
Proof.
  intros Hc. unfold updateBadgeCounterUI.
  unfold mbind at 1, Async_bind at 1.
  rewrite (getBadgeCounter_stored _ _ _ Hc).
  unfold mbind, Async_bind, action_setBadgeBackgroundColor, action_setBadgeText.
  eexists. split; [reflexivity|]. simpl.
  split; [done|]. split; [|done]. by case_decide.
Qed.


(** X7: two calls of [incrementBadgeCounter] add up: with the counter
    [c] and the increments [d1] and [d2] ([1] where none is given), when
    [c], [d1], [d2], [c + d1] and [c + d1 + d2] are integers of
    magnitude at most [2^53], the second call returns and stores
    [c + d1 + d2]; in particular the increment and its opposite bring
    the counter back to [c]. *)
Theorem incrementBadgeCounter_twice (w : World) (c : Z) (d1 d2 : option Z) :
  stored_counter (sync w) c →
  counts_exactly c (default 1 d1) →
  counts_exactly (c + default 1 d1) (default 1 d2) →
  ∃ w1 w2,
    incrementBadgeCounter d1 w = Returns (c + default 1 d1) w1
    ∧ incrementBadgeCounter d2 w1
      = Returns (c + default 1 d1 + default 1 d2) w2
    ∧ sync w2
      = <[ SK_BADGE_COUNTER := VNum (c + default 1 d1 + default 1 d2) ]> (sync w)
    ∧ (default 1 d2 = - default 1 d1 → stored_counter (sync w2) c).
Proof.
  intros Hc Hex1 Hex2.
  destruct (incrementBadgeCounter_stored w c d1 Hc Hex1) as (w1 & Hrun1 & Hs1 & _).
  assert (Hc1 : stored_counter (sync w1) (c + default 1 d1)).
  { left. rewrite Hs1. apply lookup_insert_eq. }
  destruct (incrementBadgeCounter_stored w1 _ d2 Hc1 Hex2) as (w2 & Hrun2 & Hs2 & _).
  exists w1, w2. split; [exact Hrun1|]. split; [exact Hrun2|].
  assert (Hs : sync w2
               = <[ SK_BADGE_COUNTER := VNum (c + default 1 d1 + default 1 d2) ]>
                   (sync w)).
  { by rewrite Hs2, Hs1, insert_insert_eq. }
  split; [exact Hs|].
  intros Hopp. left. rewrite Hs, lookup_insert_eq. do 2 f_equal. lia.
Qed.

Lemma incrementBadgeCounter_twice_witness :
  stored_counter (sync (worldOf {[ SK_BADGE_COUNTER := VNum 4 ]})) 4
  ∧ counts_exactly 4 (default 1 None)
  ∧ counts_exactly (4 + default 1 None) (default 1 (Some (-1)))
  ∧ ∃ w1 w2,
      incrementBadgeCounter None (worldOf {[ SK_BADGE_COUNTER := VNum 4 ]})
      = Returns 5 w1
      ∧ incrementBadgeCounter (Some (-1)) w1 = Returns 4 w2.
Proof.
  assert (H : stored_counter (sync (worldOf {[ SK_BADGE_COUNTER := VNum 4 ]})) 4)
    by (left; reflexivity).
  assert (H1 : counts_exactly 4 (default 1 None))
    by (apply counts_exactly_small; simpl; lia).
  assert (H2 : counts_exactly (4 + default 1 None) (default 1 (Some (-1))))
    by (apply counts_exactly_small; simpl; lia).
  split; [exact H|]. split; [exact H1|]. split; [exact H2|].
  destruct (incrementBadgeCounter_twice _ 4 None (Some (-1)) H H1 H2)
    as (w1 & w2 & Hr1 & Hr2 & _).
  exists w1, w2. split; [exact Hr1|exact Hr2].
Defined.

(** X8: [getBadgeCounter] called with an initial value [v] on a store
    whose counter is absent or [0] stores [v] but returns [0]; when [v]
    is not [0], the next read returns [v], not the [0] the first call
    returned. *)
Theorem getBadgeCounter_initialValue_not_returned (w : World) (v : Z) :
  stored_counter (sync w) 0 →
  v ≠ 0 →
  ∃ w',
    getBadgeCounter (Some v) w = Returns 0 w'
    ∧ sync w' !! SK_BADGE_COUNTER = Some (VNum v)
    ∧ getBadgeCounter None w' = Returns v w'.
Proof.
  intros Hc Hv. rewrite (getBadgeCounter_stored _ _ _ Hc). simpl.
  eexists. split; [reflexivity|].
  assert (Hlook : sync (World_set {[ "badgeCounter" := VNum v ]} w)
                    !! SK_BADGE_COUNTER = Some (VNum v)).
  { rewrite World_set_singleton. apply lookup_insert_eq. }
  split; [exact Hlook|].
  rewrite (getBadgeCounter_stored _ v None) by by left.
  by case_decide.
Qed.

Lemma getBadgeCounter_initialValue_not_returned_witness :
  stored_counter (sync emptyWorld) 0
  ∧ 5 ≠ 0
  ∧ ∃ w',
      getBadgeCounter (Some 5) emptyWorld = Returns 0 w'
      ∧ getBadgeCounter None w' = Returns 5 w'.
Proof.
  assert (H1 : stored_counter (sync emptyWorld) 0) by (right; split; reflexivity).
  assert (H2 : 5 ≠ 0) by lia.
  split; [exact H1|]. split; [exact H2|].
  destruct (getBadgeCounter_initialValue_not_returned emptyWorld 5 H1 H2)
    as (w' & Hr1 & _ & Hr2).
  exists w'. split; [exact Hr1|exact Hr2].
Defined.



(** X10: after [updateBadgeCounterUI] the badge text is empty exactly
    when the stored counter is [0] or less; a positive counter always
    shows some text. *)
Theorem updateBadgeCounterUI_empty_iff (w : World) (c : Z) :
  stored_counter (sync w) c →
  ∃ w' text,
    updateBadgeCounterUI w = Returns tt w'
    ∧ badgeText w' = Some text
    ∧ (text = "" ↔ c ≤ 0).
Proof.
  intros Hc.
  destruct (updateBadgeCounterUI_stored w c Hc) as (w' & Hrun & _ & _ & Htext).
  eexists w', _. split; [exact Hrun|]. split; [exact Htext|].
  destruct (0 <? c) eqn:E.
  - apply Z.ltb_lt in E. split; [|lia].
    intros Hempty. by apply Number_toString_nonempty in Hempty.
  - apply Z.ltb_ge in E. done.
Qed.

Lemma updateBadgeCounterUI_empty_iff_witness :
  stored_counter (sync (worldOf {[ SK_BADGE_COUNTER := VNum (-2) ]})) (-2)
  ∧ ∃ w',
      updateBadgeCounterUI (worldOf {[ SK_BADGE_COUNTER := VNum (-2) ]})
      = Returns tt w'
      ∧ badgeText w' = Some "".
Proof.
  assert (H : stored_counter (sync (worldOf {[ SK_BADGE_COUNTER := VNum (-2) ]})) (-2))
    by (left; reflexivity).
  split; [exact H|].
  destruct (updateBadgeCounterUI_empty_iff _ (-2) H) as (w' & text & Hrun & Ht & Hiff).
  exists w'. split; [exact Hrun|].
  rewrite Ht. f_equal. apply Hiff. lia.
Defined.

(** ** The url check: what it finds *)

(** X11: for a user whose entry is a list, or whose entry is absent and
    whose id is no property name that objects inherit, and a query that
    holds a character no numeric literal has (as [:] or [/], so every
    url), [checkUrlAlreadySnoozed] leaves the state
    as it was and answers true exactly when the query starts with the
    url of some stored record; a stored url that extends the query is
    not looked for. *)
Theorem checkUrlAlreadySnoozed_prefix_of_query (w : World) (userId url0 : string)
    (l : list SnoozeRecord) :
  stored_list (sync w) userId l →
  existsb never_numeric (list_ascii_of_string url0) = true →
  ∃ b,
    checkUrlAlreadySnoozed userId url0 w = Returns b w
    ∧ (b = true ↔ ∃ s, s ∈ l ∧ startsWith url0 (url s) = true).
Proof.
  intros Hl Hchar.
  assert (Hnan : StringToNumber url0 = Some NaN).
  { unfold StringToNumber. by rewrite Hchar. }
  rewrite (checkUrlAlreadySnoozed_NaN _ _ _ _ Hl Hnan).
  eexists. split; [reflexivity|].
  rewrite bool_decide_eq_true. apply Exists_exists.
Qed.

Lemma checkUrlAlreadySnoozed_prefix_of_query_witness :
  stored_list (sync (worldOf {[ "u" := VList [snoozeA; snoozeB] ]})) "u"
    [snoozeA; snoozeB]
  ∧ existsb never_numeric (list_ascii_of_string "https://b.com/issues/1") = true
  ∧ checkUrlAlreadySnoozed "u" "https://b.com/issues/1"
      (worldOf {[ "u" := VList [snoozeA; snoozeB] ]})
    = Returns true (worldOf {[ "u" := VList [snoozeA; snoozeB] ]}).
Proof.
  assert (H1 : stored_list (sync (worldOf {[ "u" := VList [snoozeA; snoozeB] ]})) "u"
                 [snoozeA; snoozeB]) by (left; reflexivity).
  assert (H2 : existsb never_numeric (list_ascii_of_string "https://b.com/issues/1")
               = true) by reflexivity.
  split; [exact H1|]. split; [exact H2|].
  destruct (checkUrlAlreadySnoozed_prefix_of_query _ "u" _ _ H1 H2)
    as (b & Hrun & Hiff).
  rewrite Hrun. f_equal. apply Hiff.
  exists snoozeB. split; [|reflexivity]. apply list_elem_of_In. simpl. auto.
Defined.

(** X12: a record just added is found: for a user whose entry is a list,
    or whose entry is absent and whose id is no property name that
    objects inherit, after [addSnooze userId r], the
    check answers true for every query that starts with the url of [r]
    (the url itself among them) and holds a character no numeric
    literal has. *)
Theorem addSnooze_then_checkUrl (w : World) (userId url0 : string)
    (r : SnoozeRecord) (l : list SnoozeRecord) :
  stored_list (sync w) userId l →
  existsb never_numeric (list_ascii_of_string url0) = true →
  startsWith url0 (url r) = true →
  ∃ l1 w1,
    addSnooze userId r w = Returns l1 w1
    ∧ checkUrlAlreadySnoozed userId url0 w1 = Returns true w1.
Proof.
  intros Hl Hchar Hpre. rewrite (addSnooze_stored _ _ _ _ Hl).
  eexists _, _. split; [reflexivity|].
  assert (Hnan : StringToNumber url0 = Some NaN).
  { unfold StringToNumber. by rewrite Hchar. }
  rewrite (checkUrlAlreadySnoozed_NaN _ _ _ _ (stored_list_set _ _ _) Hnan).
  f_equal. apply bool_decide_eq_true. apply Exists_exists.
  exists r. split; [|done]. apply elem_of_app. right. left.
Qed.

Lemma addSnooze_then_checkUrl_witness :
  stored_list (sync emptyWorld) "u" []
  ∧ existsb never_numeric (list_ascii_of_string (url snoozeA)) = true
  ∧ startsWith (url snoozeA) (url snoozeA) = true
  ∧ ∃ l1 w1,
      addSnooze "u" snoozeA emptyWorld = Returns l1 w1
      ∧ checkUrlAlreadySnoozed "u" (url snoozeA) w1 = Returns true w1.
Proof.
  assert (H1 : stored_list (sync emptyWorld) "u" [])
    by (right; repeat split; reflexivity).
  assert (H2 : existsb never_numeric (list_ascii_of_string (url snoozeA)) = true)
    by reflexivity.
  assert (H3 : startsWith (url snoozeA) (url snoozeA) = true) by reflexivity.
  split; [exact H1|]. split; [exact H2|]. split; [exact H3|].
  exact (addSnooze_then_checkUrl emptyWorld "u" (url snoozeA) snoozeA [] H1 H2 H3).
Defined.

Lemma snoozeMatches_empty_url (x : SnoozeRecord) :
  snoozeMatches "" x = Some true.
Proof.
  unfold snoozeMatches.
  change (StringToNumber "") with (Some (Num 0)).
  cbn [mbind option_bind]. unfold length_gt. f_equal.
  destruct (0 <? Z.of_nat (String.length (url x))) eqn:E.
  - apply startsWith_empty.
  - destruct (url x) as [|a u]; [done|].
    apply Z.ltb_ge in E. simpl String.length in E. lia.
Qed.

Lemma Array_find_empty_url (l : list SnoozeRecord) :
  Array_find (snoozeMatches "") l = Some (head l).
Proof.
  destruct l as [|x l]; [done|].
  cbn [Array_find]. by rewrite snoozeMatches_empty_url.
Qed.

(** X13: for a user whose entry is a list, or whose entry is absent and
    whose id is no property name that objects inherit: with the empty
    string as query the check answers true as soon
    as the user has any snooze, whatever its url, and false only for a
    user without snoozes. *)
Theorem checkUrlAlreadySnoozed_empty_query (w : World) (userId : string)
    (l : list SnoozeRecord) :
  stored_list (sync w) userId l →
  checkUrlAlreadySnoozed userId "" w = Returns (bool_decide (l ≠ [])) w.
Proof.
  intros Hl. unfold checkUrlAlreadySnoozed. unfold mbind, Async_bind.
  rewrite (getSnoozeList_stored _ _ _ Hl), Array_find_empty_url.
  unfold mret, Async_ret. f_equal. apply bool_decide_ext.
  pose proof (Permutation_length (Array_sort_Permutation byNotifyAt l)) as Hlen.
  destruct (Array_sort byNotifyAt l), l; simpl in *; try done; lia.
Qed.

Lemma checkUrlAlreadySnoozed_empty_query_witness :
  stored_list (sync (worldOf {[ "u" := VList [snoozeB] ]})) "u" [snoozeB]
  ∧ checkUrlAlreadySnoozed "u" "" (worldOf {[ "u" := VList [snoozeB] ]})
    = Returns true (worldOf {[ "u" := VList [snoozeB] ]}).
Proof.
  assert (H : stored_list (sync (worldOf {[ "u" := VList [snoozeB] ]})) "u" [snoozeB])
    by (left; reflexivity).
  split; [exact H|].
  exact (checkUrlAlreadySnoozed_empty_query _ "u" [snoozeB] H).
Defined.

(** ** Clearing, overwriting, and a key that holds no list *)

(** X14: after [clearSyncStorage] every user whose id is no property
    name that objects inherit has the empty list, no url is found
    snoozed for such a user, and the badge counter starts again from
    [0]: the next [incrementBadgeCounter()] returns [1].  Clearing sends
    no message. *)
Theorem clearSyncStorage_resets (w : World) (userId url0 : string) :
  Object_prototype_property userId = false →
  ∃ w',
    clearSyncStorage w = Returns tt w'
    ∧ getSnoozeList userId w' = Returns [] w'
    ∧ checkUrlAlreadySnoozed userId url0 w' = Returns false w'
    ∧ (∃ w'', incrementBadgeCounter None w' = Returns 1 w'')
    ∧ outbox w' = outbox w.
Proof.
  intros Hown. exists (World_clear w). split; [done|].
  assert (Hl : stored_list (sync (World_clear w)) userId []).
  { right. split; [apply lookup_empty|done]. }
  assert (Hc : stored_counter (sync (World_clear w)) 0).
  { right. split; [apply lookup_empty|done]. }
  split; [by rewrite (getSnoozeList_stored _ _ _ Hl)|].
  split.
  { unfold checkUrlAlreadySnoozed. unfold mbind, Async_bind.
    by rewrite (getSnoozeList_stored _ _ _ Hl). }
  split; [|done].
  assert (Hex : counts_exactly 0 (default 1 None))
    by (apply counts_exactly_small; simpl; lia).
  destruct (incrementBadgeCounter_stored _ 0 None Hc Hex) as (w'' & Hrun & _).
  by exists w''.
Qed.

Lemma clearSyncStorage_resets_witness :
  Object_prototype_property "u" = false
  ∧ ∃ w',
      clearSyncStorage (worldOf {[ "u" := VList [snoozeA]; SK_BADGE_COUNTER := VNum 3 ]})
      = Returns tt w'
      ∧ getSnoozeList "u" w' = Returns [] w'
      ∧ ∃ w'', incrementBadgeCounter None w' = Returns 1 w''.
Proof.
  assert (H : Object_prototype_property "u" = false) by reflexivity.
  split; [exact H|].
  destruct (clearSyncStorage_resets
              (worldOf {[ "u" := VList [snoozeA]; SK_BADGE_COUNTER := VNum 3 ]})
              "u" "" H) as (w' & Hclr & Hget & _ & Hinc & _).
  exists w'. split; [exact Hclr|]. split; [exact Hget|exact Hinc].
Defined.

(** X15: [setSnoozeList] followed by [getSnoozeList] gives the records
    that were set, in ascending order, whatever was stored before; a
    list set in ascending order is read back as it is.  No other key is
    written. *)
Theorem setSnoozeList_getSnoozeList (w : World) (userId : string)
    (l : list SnoozeRecord) :
  ∃ w' r,
    setSnoozeList userId l w = Returns tt w'
    ∧ getSnoozeList userId w' = Returns r w'
    ∧ ascending r
    ∧ r ≡ₚ l
    ∧ (ascending l → r = l)
    ∧ (∀ k, k ≠ userId → sync w' !! k = sync w !! k).
Proof.
  exists (World_set {[ userId := VList l ]} w), (Array_sort byNotifyAt l).
  split; [done|].
  split; [apply getSnoozeList_stored, stored_list_set|].
  split; [apply Array_sort_ascending|].
  split; [apply Array_sort_Permutation|].
  split; [apply Array_sort_ascending_id|].
  intros k Hk. rewrite World_set_singleton. by rewrite lookup_insert_ne.
Qed.

Lemma setSnoozeList_getSnoozeList_witness :
  ascending [snoozeB; snoozeA]
  ∧ ∃ w',
      setSnoozeList "u" [snoozeB; snoozeA] (worldOf {[ "u" := VList [snoozeAx] ]})
      = Returns tt w'
      ∧ getSnoozeList "u" w' = Returns [snoozeB; snoozeA] w'.
Proof.
  assert (H : ascending [snoozeB; snoozeA]).
  { repeat constructor. unfold notifyAt_le. simpl. lia. }
  split; [exact H|].
  destruct (setSnoozeList_getSnoozeList (worldOf {[ "u" := VList [snoozeAx] ]})
              "u" [snoozeB; snoozeA]) as (w' & r & Hset & Hget & _ & _ & Hid & _).
  exists w'. split; [exact Hset|]. rewrite <- (Hid H). exact Hget.
Defined.

(** X16: when the key read as [userId] holds a number other than [0]
    (the badge counter's key, once the counter is not zero), reading the
    list throws, and so do [addSnooze], [removeSnooze], [updateSnooze]
    and [checkUrlAlreadySnoozed]; each rejects before it writes or
    sends anything, so the state is as before. *)
Theorem number_under_userId_throws (w : World) (userId url0 : string)
    (snooze : SnoozeRecord) (n : Z) :
  sync w !! userId = Some (VNum n) →
  n ≠ 0 →
  getSnoozeList userId w = Throws w
  ∧ addSnooze userId snooze w = Throws w
  ∧ removeSnooze userId snooze w = Throws w
  ∧ updateSnooze userId snooze w = Throws w
  ∧ checkUrlAlreadySnoozed userId url0 w = Throws w.
Proof.
  intros Hn Hnz.
  assert (Hget : getSnoozeList userId w = Throws w).
  { unfold getSnoozeList. async_unfold. unfold Object_get. rewrite Hn. simpl.
    apply Z.eqb_neq in Hnz. by rewrite Hnz. }
  split; [exact Hget|].
  unfold addSnooze, removeSnooze, updateSnooze, checkUrlAlreadySnoozed.
  unfold mbind, Async_bind. by rewrite Hget.
Qed.

Lemma number_under_userId_throws_witness :
  sync (worldOf {[ SK_BADGE_COUNTER := VNum 3 ]}) !! SK_BADGE_COUNTER = Some (VNum 3)
  ∧ 3 ≠ 0
  ∧ addSnooze SK_BADGE_COUNTER snoozeA (worldOf {[ SK_BADGE_COUNTER := VNum 3 ]})
    = Throws (worldOf {[ SK_BADGE_COUNTER := VNum 3 ]}).
Proof.
  assert (H1 : sync (worldOf {[ SK_BADGE_COUNTER := VNum 3 ]}) !! SK_BADGE_COUNTER
               = Some (VNum 3)) by reflexivity.
  assert (H2 : 3 ≠ 0) by lia.
  split; [exact H1|]. split; [exact H2|].
  exact (proj1 (proj2 (number_under_userId_throws _ SK_BADGE_COUNTER "" snoozeA 3 H1 H2))).
Defined.
